(** * astroNN.nn.losses.classification: loss functions for classification

    A shallow embedding of [astroNN/nn/losses/classification.py] and the
    properties its specification states about it.

    Scalars are real numbers: the tensor engine's floating-point values are
    read through their exact real semantics.  Tensors are row-major (a shape
    and the flat list of the elements), the way the engine stores them.
    Python exceptions are values of an error monad. *)

From Stdlib Require Import String Ascii DecimalString.
From Stdlib Require Import Reals Lra Lia List Bool Arith ZArith.
Import ListNotations.

Local Open Scope R_scope.

(** ** Exceptions *)

Inductive exn : Type :=
| ValueError (msg : string)
| InvalidArgumentError (msg : string)
| AttributeError (msg : string).

Inductive result (A : Type) : Type :=
| Ok (a : A)
| Raise (e : exn).

Arguments Ok {A} a.
Arguments Raise {A} e.

Definition bind {A B : Type} (r : result A) (k : A -> result B) : result B :=
  match r with
  | Ok a => k a
  | Raise e => Raise e
  end.

Notation "x <- c ;; k" := (bind c (fun x => k))
  (at level 61, c at next level, right associativity).

(** ** Scalars *)

Definition Rgeb (x y : R) : bool := if Rge_dec x y then true else false.
Definition Rgtb (x y : R) : bool := if Rgt_dec x y then true else false.
Definition Reqb (x y : R) : bool := if Req_dec_T x y then true else false.

(** [math_ops.log1p] *)
Definition log1p (x : R) : R := ln (1 + x).

(** [tf.nn.elu] on one element *)
Definition elu (x : R) : R := if Rgtb x 0 then x else exp x - 1.

(** [tf.clip_by_value] on one element: [maximum(minimum(x, hi), lo)] *)
Definition clip (lo hi x : R) : R := Rmax (Rmin x hi) lo.

Definition Rsum (l : list R) : R := fold_right Rplus 0 l.

(** ** Tensors *)

Record Tensor (A : Type) : Type := mkTensor { shape : list nat; data : list A }.

Arguments mkTensor {A} shape data.
Arguments shape {A} t.
Arguments data {A} t.

(** Number of elements of a shape. *)
Definition numel (s : list nat) : nat := fold_right Nat.mul 1%nat s.

Definition rank {A} (t : Tensor A) : nat := length (shape t).

(** A tensor holds as many elements as its shape says. *)
Definition wf {A} (t : Tensor A) : Prop := length (data t) = numel (shape t).

(** [chunks k n l]: the first [n] consecutive blocks of [k] elements of [l]. *)
Fixpoint chunks {A} (k n : nat) (l : list A) : list (list A) :=
  match n with
  | O => []
  | S n' => firstn k l :: chunks k n' (skipn k l)
  end.

Fixpoint map2 {A B C} (f : A -> B -> C) (l1 : list A) (l2 : list B) : list C :=
  match l1, l2 with
  | a :: l1', b :: l2' => f a b :: map2 f l1' l2'
  | _, _ => []
  end.

(** The rows of a tensor along its last axis. *)
Definition rows {A} (t : Tensor A) : list (list A) :=
  chunks (last (shape t) 1%nat) (numel (removelast (shape t))) (data t).

(** *** Broadcasting *)

Definition pad_left (n : nat) (s : list nat) : list nat :=
  repeat 1%nat (n - length s) ++ s.

Definition broadcast_dim (x y : nat) : option nat :=
  if (x =? y)%nat then Some x
  else if (x =? 1)%nat then Some y
  else if (y =? 1)%nat then Some x
  else None.

(** The common shape of two shapes of the same rank. *)
Fixpoint broadcast_shape (a b : list nat) : option (list nat) :=
  match a, b with
  | [], [] => Some []
  | x :: a', y :: b' =>
      match broadcast_dim x y, broadcast_shape a' b' with
      | Some d, Some r => Some (d :: r)
      | _, _ => None
      end
  | _, _ => None
  end.

(** [expand s tgt l]: the elements of a tensor of shape [s] repeated along
    the axes of size 1 that [tgt] enlarges. *)
Fixpoint expand {A} (s tgt : list nat) (l : list A) : list A :=
  match s, tgt with
  | d :: s', D :: tgt' =>
      let blocks := map (expand s' tgt') (chunks (numel s') d l) in
      if (d =? D)%nat then concat blocks else concat (repeat (concat blocks) D)
  | _, _ => l
  end.

(** An element-wise binary operator of the engine ([+], [-], [*], [/],
    [>=]), with broadcasting. *)
Definition tf_binop {A B C} (f : A -> B -> C) (a : Tensor A) (b : Tensor B)
  : result (Tensor C) :=
  let r := Nat.max (rank a) (rank b) in
  let sa := pad_left r (shape a) in
  let sb := pad_left r (shape b) in
  match broadcast_shape sa sb with
  | Some s =>
      Ok (mkTensor s (map2 f (expand sa s (data a)) (expand sb s (data b))))
  | None => Raise (ValueError "Dimensions must be equal")
  end.

Definition tf_unop {A B} (f : A -> B) (a : Tensor A) : Tensor B :=
  mkTensor (shape a) (map f (data a)).

Definition tf_add := tf_binop Rplus.
Definition tf_sub := tf_binop Rminus.
Definition tf_mul := tf_binop Rmult.
Definition tf_div := tf_binop Rdiv.
Definition tf_greater_equal := tf_binop Rgeb.
Definition tf_neg := tf_unop Ropp.
Definition tf_exp := tf_unop exp.
Definition tf_log := tf_unop ln.
Definition tf_log1p := tf_unop log1p.
Definition tf_sqrt := tf_unop sqrt.
Definition tf_elu := tf_unop elu.
Definition tf_zeros_like (t : Tensor R) : Tensor R := tf_unop (fun _ => 0) t.
Definition tf_ones_like (t : Tensor R) : Tensor R := tf_unop (fun _ => 1) t.
Definition tf_clip_by_value (t : Tensor R) (lo hi : R) : Tensor R :=
  tf_unop (clip lo hi) t.

(** [tf.equal(t, c)] against a Python scalar. *)
Definition tf_equal (t : Tensor R) (c : R) : Tensor bool :=
  tf_unop (fun x => Reqb x c) t.

(** *** Selection *)

Fixpoint shape_eqb (a b : list nat) : bool :=
  match a, b with
  | [], [] => true
  | x :: a', y :: b' => (x =? y)%nat && shape_eqb a' b'
  | _, _ => false
  end.

Fixpoint select {A} (c : list bool) (x y : list A) : list A :=
  match c, x, y with
  | b :: c', u :: x', v :: y' => (if b then u else v) :: select c' x' y'
  | _, _, _ => []
  end.

(** What Python hands to [where] as its condition: a tensor of booleans, or
    a plain Python [bool], which the engine takes as a scalar condition. *)
Inductive condition : Type :=
| PyBool (b : bool)
| BoolTensor (t : Tensor bool).

(** [array_ops.where(condition, x, y)] / [tf.where]: [x] and [y] have one
    shape; the condition is a scalar, has that shape too, or is a vector that
    selects along the first axis. *)
Definition tf_where {A} (c : condition) (x y : Tensor A) : result (Tensor A) :=
  if shape_eqb (shape x) (shape y) then
    match c with
    | PyBool b => Ok (if b then x else y)
    | BoolTensor t =>
        if shape_eqb (shape t) (shape x) then
          Ok (mkTensor (shape x) (select (data t) (data x) (data y)))
        else if shape_eqb (shape t) (firstn 1 (shape x)) then
          let inner := numel (skipn 1 (shape x)) in
          Ok (mkTensor (shape x)
                (select (flat_map (fun b => repeat b inner) (data t))
                   (data x) (data y)))
        else Raise (ValueError "Shapes must be equal rank")
    end
  else Raise (ValueError "Dimensions must be equal").

(** *** Reductions *)

(** The columns of a block given by its lines of [inner] elements. *)
Definition columns {A} (d : A) (inner : nat) (lines : list (list A))
  : list (list A) :=
  map (fun i => map (fun line => nth i line d) lines) (seq 0 inner).

(** Python's axis argument: a negative axis counts from the end. *)
Definition normalize_axis (axis : Z) (r : nat) : option nat :=
  let a := (if axis <? 0 then axis + Z.of_nat r else axis)%Z in
  if ((0 <=? a) && (a <? Z.of_nat r))%Z then Some (Z.to_nat a) else None.

Definition reduce_axis (f : list R -> R) (t : Tensor R) (axis : Z)
  (keepdims : bool) : result (Tensor R) :=
  match normalize_axis axis (rank t) with
  | Some ax =>
      let pre := firstn ax (shape t) in
      let d := nth ax (shape t) 1%nat in
      let post := skipn (S ax) (shape t) in
      let inner := numel post in
      Ok (mkTensor (pre ++ (if keepdims then [1%nat] else []) ++ post)
            (flat_map
               (fun block => map f (columns 0 inner (chunks inner d block)))
               (chunks (d * inner) (numel pre) (data t))))
  | None => Raise (ValueError "Invalid reduction dimension")
  end.

Definition Rmean (l : list R) : R := Rsum l / INR (length l).

Definition tf_reduce_sum := reduce_axis Rsum.
Definition tf_reduce_mean (t : Tensor R) (axis : Z) : result (Tensor R) :=
  reduce_axis Rmean t axis false.

(** *** Static shapes and their text *)

(** [Tensor.get_shape()]; the static shape of a tensor is taken fully
    defined, so it is the shape itself. *)
Definition get_shape {A} (t : Tensor A) : list nat := shape t.

(** [TensorShape.merge_with]: two fully defined shapes merge when they are
    the same shape, and [ValueError] is raised otherwise. *)
Definition merge_with (a b : list nat) : result (list nat) :=
  if shape_eqb a b then Ok a
  else Raise (ValueError "Shapes are not compatible").

Definition str_nat (n : nat) : string :=
  NilEmpty.string_of_uint (Nat.to_uint n).

(** [str] of a [TensorShape]: [(2, 3)], [(2,)], [()]. *)
Definition str_shape (s : list nat) : string :=
  match s with
  | [d] => "(" ++ str_nat d ++ ",)"
  | _ => "(" ++ String.concat ", " (map str_nat s) ++ ")"
  end%string.

(** [str.format] with positional fields: a template is its literal pieces
    and its replacement fields [{i!s}], each naming an argument by index. *)
Inductive piece : Type :=
| Lit (s : string)
| Field (index : nat).

Definition format (template : list piece) (args : list string) : string :=
  String.concat ""
    (map (fun p => match p with
                   | Lit s => s
                   | Field i => nth i args ""%string
                   end) template).

(** *** Indexing *)

(** [tf.shape(t)[i]] *)
Definition tf_shape_at {A} (t : Tensor A) (i : nat) : result nat :=
  match nth_error (shape t) i with
  | Some d => Ok d
  | None => Raise (ValueError "slice index out of bounds")
  end.

(** [t[:, i]]: an index on the second axis drops that axis and is checked
    against its size. *)
Definition index_axis1 {A} (t : Tensor A) (i : nat) : result (Tensor A) :=
  match shape t with
  | d0 :: d1 :: rest =>
      if (i <? d1)%nat then
        let inner := numel rest in
        Ok (mkTensor (d0 :: rest)
              (flat_map (fun block => firstn inner (skipn (i * inner) block))
                 (chunks (d1 * inner) d0 (data t))))
      else Raise (InvalidArgumentError "slice index out of bounds")
  | _ => Raise (ValueError "Index out of range")
  end.

(** [t[:, start:stop]]: a range on the second axis is clamped to its size. *)
Definition slice_axis1 {A} (t : Tensor A) (start stop : nat)
  : result (Tensor A) :=
  match shape t with
  | d0 :: d1 :: rest =>
      let stop' := Nat.min stop d1 in
      let start' := Nat.min start stop' in
      let inner := numel rest in
      Ok (mkTensor (d0 :: (stop' - start')%nat :: rest)
            (flat_map
               (fun block =>
                  firstn ((stop' - start') * inner) (skipn (start' * inner) block))
               (chunks (d1 * inner) d0 (data t))))
  | _ => Raise (ValueError "Index out of range")
  end.

(** [tf.transpose(t)]: the axes in reverse order. *)
Fixpoint transpose_data {A} (d : A) (s : list nat) (l : list A) : list A :=
  match s with
  | [] => l
  | d0 :: s' =>
      concat (columns d (numel s')
                (map (transpose_data d s') (chunks (numel s') d0 l)))
  end.

Definition tf_transpose (t : Tensor R) : Tensor R :=
  mkTensor (rev (shape t)) (transpose_data 0 (shape t) (data t)).

(** [tf.ones(n)] *)
Definition tf_ones (n : nat) : Tensor R := mkTensor [n] (repeat 1 n).

(** Stacking the results of [tf.map_fn] along a new first axis. *)
Definition tf_stack (ts : list (Tensor R)) : result (Tensor R) :=
  match ts with
  | [] => Ok (mkTensor [0%nat] [])
  | t :: _ =>
      if forallb (fun u => shape_eqb (shape u) (shape t)) ts then
        Ok (mkTensor (length ts :: shape t) (flat_map (@data R) ts))
      else Raise (ValueError "Shapes must be equal")
  end.

(** *** Softmax cross-entropy with logits

    [tf.nn.softmax_cross_entropy_with_logits] and its [_v2] compute the same
    forward value: along the last axis,
    [- sum_j labels_j * (logits_j - log (sum_k exp logits_k))]. *)

Definition log_softmax (x : list R) : list R :=
  let lse := ln (Rsum (map exp x)) in
  map (fun v => v - lse) x.

Definition softmax_xent_row (l x : list R) : R :=
  - Rsum (map2 Rmult l (log_softmax x)).

Definition tf_nn_softmax_cross_entropy_with_logits (labels logits : Tensor R)
  : result (Tensor R) :=
  match shape logits with
  | [] => Raise (ValueError "Shape must be at least rank 1")
  | _ =>
      if shape_eqb (shape labels) (shape logits) then
        Ok (mkTensor (removelast (shape logits))
              (map2 softmax_xent_row (rows labels) (rows logits)))
      else Raise (ValueError "logits and labels must be same size")
  end.

Definition tf_nn_softmax_cross_entropy_with_logits_v2 :=
  tf_nn_softmax_cross_entropy_with_logits.

(** *** Python's [==] on a tensor

    [t == c] goes through [Tensor.__eq__].  In TensorFlow 1.x (the line that
    ships [tensorflow.contrib], which the module imports) graph tensors
    compare by object identity, so [t == c] is the Python constant [False];
    an engine with element-wise tensor equality yields the mask that
    [tf.equal] computes. *)
Inductive eq_semantics : Type :=
| ObjectIdentity
| ElementWise.

Definition py_eq (m : eq_semantics) (t : Tensor R) (c : R) : condition :=
  match m with
  | ObjectIdentity => PyBool false
  | ElementWise => BoolTensor (tf_equal t c)
  end.

(** ** The module *)

Section classification.

(** [astroNN.MAGIC_NUMBER], the label of a missing value. *)
Variable MAGIC_NUMBER : R.

(** [keras.backend.epsilon()] *)
Variable epsilon : R.

(** The engine's reading of [==] on tensors. *)
Variable tensor_eq : eq_semantics.

(** Whether [tf.nn] has the attribute [softmax_cross_entropy_with_logits_v2]. *)
Variable has_v2 : bool.

(** The engine's random generator and normal sampler ([tf.random_normal]),
    and distribution objects with their [sample] method. *)
Variable RNG : Type.
Variable random_normal :
  RNG -> list nat -> Tensor R -> Tensor R -> Tensor R * RNG.
Variable Distribution : Type.
Variable dist_sample : Distribution -> nat -> RNG -> Tensor R * RNG.

Definition shape_mismatch_template : list piece :=
  [Lit "logits and labels must have the same shape ("; Field 0;
   Lit " vs "; Field 0; Lit ")"].

Definition astronn_sigmoid_cross_entropy_with_logits
  (labels logits : Tensor R) : result (Tensor R) :=
  match merge_with (get_shape labels) (get_shape logits) with
  | Raise (ValueError _) =>
      Raise (ValueError
               (format shape_mismatch_template
                  [str_shape (get_shape logits); str_shape (get_shape labels)]))
  | Raise e => Raise e
  | Ok _ =>
      let zeros := tf_zeros_like logits in
      cond <- tf_greater_equal logits zeros ;;
      relu_logits <- tf_where (BoolTensor cond) logits zeros ;;
      neg_abs_logits <- tf_where (BoolTensor cond) (tf_neg logits) logits ;;
      let magic_cond := py_eq tensor_eq labels MAGIC_NUMBER in
      prod <- tf_mul logits labels ;;
      diff <- tf_sub relu_logits prod ;;
      raw_loss <- tf_add diff (tf_log1p (tf_exp neg_abs_logits)) ;;
      tf_where magic_cond zeros raw_loss
  end.

Definition categorical_cross_entropy (y_true y_pred : Tensor R)
  (from_logits : bool) : result (Tensor R) :=
  if negb from_logits then
    y_true <- tf_where (BoolTensor (tf_equal y_true MAGIC_NUMBER))
                (tf_zeros_like y_true) y_true ;;
    total <- tf_reduce_sum y_pred (Z.of_nat (length (get_shape y_pred)) - 1) true ;;
    y_pred <- tf_div y_pred total ;;
    let epsilon_tensor := epsilon in
    let y_pred := tf_clip_by_value y_pred epsilon_tensor (1 - epsilon_tensor) in
    terms <- tf_mul y_true (tf_log y_pred) ;;
    total <- tf_reduce_sum terms (Z.of_nat (length (get_shape y_pred)) - 1) false ;;
    Ok (tf_neg total)
  else if has_v2 then
    tf_nn_softmax_cross_entropy_with_logits_v2 y_true y_pred
  else
    tf_nn_softmax_cross_entropy_with_logits y_true y_pred.

(** Two stops on the way through probability mode: the tensor that [tf.log]
    receives, and the tensor [y_true * tf.log(y_pred)] that the final
    [tf.reduce_sum] receives. *)
Definition clipped_probabilities (y_pred : Tensor R) : result (Tensor R) :=
  total <- tf_reduce_sum y_pred (Z.of_nat (length (get_shape y_pred)) - 1) true ;;
  y_pred <- tf_div y_pred total ;;
  let epsilon_tensor := epsilon in
  Ok (tf_clip_by_value y_pred epsilon_tensor (1 - epsilon_tensor)).

Definition cross_entropy_terms (y_true y_pred : Tensor R)
  : result (Tensor R) :=
  y_true <- tf_where (BoolTensor (tf_equal y_true MAGIC_NUMBER))
              (tf_zeros_like y_true) y_true ;;
  y_pred <- clipped_probabilities y_pred ;;
  tf_mul y_true (tf_log y_pred).

(** The labels and logits that [binary_cross_entropy] hands to
    [astronn_sigmoid_cross_entropy_with_logits]. *)
Definition binary_inputs (y_true y_pred : Tensor R) (from_logits : bool)
  : result (Tensor R * Tensor R) :=
  if negb from_logits then
    y_true <- tf_where (BoolTensor (tf_equal y_true MAGIC_NUMBER))
                (tf_zeros_like y_true) y_true ;;
    let epsilon_tensor := epsilon in
    let y_pred := tf_clip_by_value y_pred epsilon_tensor (1 - epsilon_tensor) in
    odds <- tf_div y_pred (tf_unop (fun p => 1 - p) y_pred) ;;
    Ok (y_true, tf_log odds)
  else Ok (y_true, y_pred).

Definition binary_cross_entropy (y_true y_pred : Tensor R)
  (from_logits : bool) : result (Tensor R) :=
  inputs <- binary_inputs y_true y_pred from_logits ;;
  losses <- astronn_sigmoid_cross_entropy_with_logits (fst inputs) (snd inputs) ;;
  tf_reduce_mean losses (-1).

(** *** The Bayesian cross-entropy *)

(** A Python value bound to [dist]: the attribute [sample] exists on a
    distribution object and not on a tensor. *)
Inductive pyobj : Type :=
| TensorObj (t : Tensor R)
| DistributionObj (d : Distribution).

Definition sample (o : pyobj) (n : nat) (g : RNG) : result (Tensor R * RNG) :=
  match o with
  | DistributionObj d => Ok (dist_sample d n g)
  | TensorObj _ =>
      Raise (AttributeError "'Tensor' object has no attribute 'sample'")
  end.

(** [tf.map_fn(fn, elems)]: [fn] on each element of [elems] in turn, every
    call drawing from the generator the previous one left; the results are
    stacked. *)
Fixpoint map_fn_loop (fn : R -> RNG -> result (Tensor R * RNG))
  (elems : list R) (g : RNG) : result (list (Tensor R) * RNG) :=
  match elems with
  | [] => Ok ([], g)
  | e :: rest =>
      r <- fn e g ;;
      rs <- map_fn_loop fn rest (snd r) ;;
      Ok (fst r :: fst rs, snd rs)
  end.

Definition tf_map_fn (fn : R -> RNG -> result (Tensor R * RNG))
  (elems : Tensor R) (g : RNG) : result (Tensor R * RNG) :=
  rs <- map_fn_loop fn (data elems) g ;;
  stacked <- tf_stack (fst rs) ;;
  Ok (stacked, snd rs).

(** The source's parameter [true] is [true_] here. *)
Definition gaussian_crossentropy (true_ pred : Tensor R) (dist : pyobj)
  (undistorted_loss : Tensor R) (num_classes : nat)
  : R -> RNG -> result (Tensor R * RNG) :=
  fun i g =>
    drawn <- sample dist num_classes g ;;
    let std_samples := tf_transpose (fst drawn) in
    distorted <- tf_add pred std_samples ;;
    distorted_loss <- categorical_cross_entropy distorted true_ true ;;
    diff <- tf_sub undistorted_loss distorted_loss ;;
    Ok (tf_neg (tf_elu diff), snd drawn).

(** The locals of [bayesian_crossentropy], one definition per assignment of
    the body; a local is an error when the engine cannot compute it. *)
Section bayesian_crossentropy_body.

Variable from_logits : bool.
Variable g : RNG.
Variables y_true y_pred : Tensor R.

Definition bayes_T : nat := 25.

Definition bayes_num_classes : result nat := tf_shape_at y_pred 1.

Definition bayes_std : Tensor R := tf_sqrt y_pred.

Definition bayes_variance : result (Tensor R) :=
  num_classes <- bayes_num_classes ;;
  index_axis1 y_pred num_classes.

Definition bayes_variance_depressor : result (Tensor R) :=
  variance <- bayes_variance ;;
  tf_sub (tf_exp variance) (tf_ones_like variance).

Definition bayes_pred : result (Tensor R) :=
  num_classes <- bayes_num_classes ;;
  slice_axis1 y_pred 0 num_classes.

Definition bayes_undistorted_loss : result (Tensor R) :=
  pred <- bayes_pred ;;
  categorical_cross_entropy pred y_true from_logits.

Definition bayes_iterable : Tensor R := tf_ones bayes_T.

Definition bayes_norm_dist : Tensor R * RNG :=
  random_normal g (shape bayes_std) (tf_zeros_like bayes_std) bayes_std.

Definition bayes_monte_carlo_results : result (Tensor R) :=
  pred <- bayes_pred ;;
  undistorted_loss <- bayes_undistorted_loss ;;
  num_classes <- bayes_num_classes ;;
  results <- tf_map_fn
               (gaussian_crossentropy y_true pred
                  (TensorObj (fst bayes_norm_dist)) undistorted_loss num_classes)
               bayes_iterable (snd bayes_norm_dist) ;;
  Ok (fst results).

Definition bayes_variance_loss : result (Tensor R) :=
  monte_carlo_results <- bayes_monte_carlo_results ;;
  mean <- tf_reduce_mean monte_carlo_results 0 ;;
  undistorted_loss <- bayes_undistorted_loss ;;
  tf_mul mean undistorted_loss.

Definition bayesian_crossentropy : result (Tensor R) :=
  variance_loss <- bayes_variance_loss ;;
  undistorted_loss <- bayes_undistorted_loss ;;
  partial <- tf_add variance_loss undistorted_loss ;;
  variance_depressor <- bayes_variance_depressor ;;
  tf_add partial variance_depressor.

End bayesian_crossentropy_body.

Definition bayesian_crossentropy_wrapper (from_logits : bool)
  : RNG -> Tensor R -> Tensor R -> result (Tensor R) :=
  bayesian_crossentropy from_logits.

(** ** Element-wise and row-wise readings *)

(** The logistic loss of one element as the specification writes it:
    [log(1 + exp(-|x|)) + max(x, 0) - x * y]. *)
Definition logistic_loss (x y : R) : R :=
  ln (1 + exp (- Rabs x)) + Rmax x 0 - x * y.

(** The sign-split evaluation of the source on one element. *)
Definition relu_logit (x : R) : R := if Rgeb x 0 then x else 0.
Definition neg_abs_logit (x : R) : R := if Rgeb x 0 then - x else x.
Definition raw_loss (x y : R) : R :=
  relu_logit x - x * y + log1p (exp (neg_abs_logit x)).

(** Whether [labels == MAGIC_NUMBER] holds at an element with label [y]. *)
Definition masked (y : R) : bool :=
  match tensor_eq with
  | ObjectIdentity => false
  | ElementWise => Reqb y MAGIC_NUMBER
  end.

Definition sigmoid_loss (x y : R) : R := if masked y then 0 else raw_loss x y.

(** Probability mode of [categorical_cross_entropy] as the specification
    lists its steps, on one row of labels and one row of predictions:
    (a) labels equal to the sentinel become 0; (b) the predictions are
    divided by their sum; (c) they are clipped into [eps, 1 - eps];
    (d) the loss is [- sum(y_true * log(y_pred))]. *)
Definition spec_mask_labels (ys : list R) : list R :=
  map (fun y => if Reqb y MAGIC_NUMBER then 0 else y) ys.

Definition spec_renormalize (ps : list R) : list R :=
  map (fun p => p / Rsum ps) ps.

Definition spec_clip (ps : list R) : list R :=
  map (clip epsilon (1 - epsilon)) ps.

Definition spec_log_arguments (ps : list R) : list R :=
  spec_clip (spec_renormalize ps).

Definition spec_row_terms (ys ps : list R) : list R :=
  map2 Rmult (spec_mask_labels ys) (map ln (spec_log_arguments ps)).

Definition spec_cross_entropy_row (ys ps : list R) : R :=
  - Rsum (spec_row_terms ys ps).

(** One loss per row: the last axis is gone from the shape. *)
Definition spec_categorical_cross_entropy (y_true y_pred : Tensor R)
  : Tensor R :=
  mkTensor (removelast (shape y_pred))
    (map2 spec_cross_entropy_row (rows y_true) (rows y_pred)).

(** The logit [log(p / (1 - p))] of a probability. *)
Definition logit (p : R) : R := ln (p / (1 - p)).

(** ** Concrete inputs

    The sentinel that the specification names, [-9999.], and the default of
    [keras.backend.epsilon()], [1e-07]. *)

Definition magic : R := -9999.
Definition keras_epsilon : R := / 10000000.

(** The scenario of the specification. *)
Definition scenario_labels : Tensor R :=
  mkTensor [2; 2]%nat [1; 0; magic; magic].
Definition scenario_logits : Tensor R :=
  mkTensor [2; 2]%nat [2; -1; 5; 5].

(** One missing label, predicted with probability 3/4. *)
Definition missing_label : Tensor R := mkTensor [1; 1]%nat [magic].
Definition three_quarters : Tensor R := mkTensor [1; 1]%nat [3 / 4].

(** Predictions for the labels of the scenario, with positive row sums. *)
Definition scenario_predictions : Tensor R :=
  mkTensor [2; 2]%nat [1; 3; 1; 1].

(** One example with two class scores and a variance, and its labels. *)
Definition bayes_y_pred : Tensor R := mkTensor [1; 3]%nat [1; 0; 0].
Definition bayes_y_true : Tensor R := mkTensor [1; 3]%nat [0; 1; 0].

(** ** Readings used by the further properties *)

(** The sigmoid of a logit, and the cross-entropy of a label against it,
    which the docstring of [astronn_sigmoid_cross_entropy_with_logits]
    names: [- (y * log(sigmoid x) + (1 - y) * log(1 - sigmoid x))]. *)
Definition sigmoid (x : R) : R := / (1 + exp (- x)).

Definition bernoulli_cross_entropy (x y : R) : R :=
  - (y * ln (sigmoid x) + (1 - y) * ln (1 - sigmoid x)).

(** A tensor of labels with every sentinel replaced by 0. *)
Definition zero_missing_labels (y_true : Tensor R) : Tensor R :=
  mkTensor (shape y_true) (spec_mask_labels (data y_true)).

(** Two examples with known labels and probabilities inside
    [epsilon, 1 - epsilon]; a scalar. *)
Definition known_labels : Tensor R := mkTensor [2; 2]%nat [1; 0; 0; 1].
Definition inner_probabilities : Tensor R :=
  mkTensor [2; 2]%nat [3 / 4; 1 / 4; 1 / 2; 1 / 2].
Definition scalar_one : Tensor R := mkTensor [] [1].

(** ** Lists, blocks and shapes *)

Lemma Reqb_true (x y : R) : x = y -> Reqb x y = true.
Proof. intros H; unfold Reqb; destruct (Req_dec_T x y); congruence. Qed.

Lemma Reqb_false (x y : R) : x <> y -> Reqb x y = false.
Proof. intros H; unfold Reqb; destruct (Req_dec_T x y); congruence. Qed.

Lemma Rgeb_true (x y : R) : x >= y -> Rgeb x y = true.
Proof. intros H; unfold Rgeb; destruct (Rge_dec x y); tauto. Qed.

Lemma shape_eqb_refl (s : list nat) : shape_eqb s s = true.
Proof. induction s; simpl; [reflexivity | now rewrite Nat.eqb_refl]. Qed.

Lemma shape_eqb_eq (a b : list nat) : shape_eqb a b = true <-> a = b.
Proof.
  split; [| intros ->; apply shape_eqb_refl].
  revert b; induction a as [| x a IH]; intros [| y b]; simpl; try discriminate; auto.
  intros H; apply andb_true_iff in H as [H1 H2].
  apply Nat.eqb_eq in H1; f_equal; auto.
Qed.

Lemma shape_eqb_neq (a b : list nat) : a <> b -> shape_eqb a b = false.
Proof.
  intros H; destruct (shape_eqb a b) eqn:E; [| reflexivity].
  apply shape_eqb_eq in E; contradiction.
Qed.

Lemma numel_app (a b : list nat) : numel (a ++ b) = (numel a * numel b)%nat.
Proof. induction a; simpl; [lia | rewrite IHa; lia]. Qed.

Lemma map2_length {A B C} (f : A -> B -> C) l1 l2 :
  length l1 = length l2 -> length (map2 f l1 l2) = length l1.
Proof.
  revert l2; induction l1; intros [| b l2]; simpl; intros H; try discriminate; auto.
Qed.

Lemma map2_map_l {A A' B C} (f : A' -> B -> C) (h : A -> A') l1 l2 :
  map2 f (map h l1) l2 = map2 (fun a b => f (h a) b) l1 l2.
Proof. revert l2; induction l1; intros [| b l2]; simpl; f_equal; auto. Qed.

Lemma map2_map_r {A B B' C} (f : A -> B' -> C) (h : B -> B') l1 l2 :
  map2 f l1 (map h l2) = map2 (fun a b => f a (h b)) l1 l2.
Proof. revert l2; induction l1; intros [| b l2]; simpl; f_equal; auto. Qed.

Lemma map2_ext {A B C} (f f' : A -> B -> C) l1 l2 :
  (forall a b, f a b = f' a b) -> map2 f l1 l2 = map2 f' l1 l2.
Proof.
  intros H; revert l2; induction l1; intros [| b l2]; simpl; f_equal; auto.
Qed.

Lemma map2_diag {A C} (f : A -> A -> C) l :
  map2 f l l = map (fun a => f a a) l.
Proof. induction l; simpl; f_equal; auto. Qed.

Lemma map2_app {A B C} (f : A -> B -> C) l1 l1' l2 l2' :
  length l1 = length l2 ->
  map2 f (l1 ++ l1') (l2 ++ l2') = map2 f l1 l2 ++ map2 f l1' l2'.
Proof.
  revert l2; induction l1; intros [| b l2]; simpl; intros H; try discriminate; auto.
  f_equal; auto.
Qed.

Lemma map2_nth_error {A B C} (f : A -> B -> C) l1 l2 i a b :
  nth_error l1 i = Some a -> nth_error l2 i = Some b ->
  nth_error (map2 f l1 l2) i = Some (f a b).
Proof.
  revert l2 i; induction l1 as [| x l1 IH]; intros [| y l2] [| i]; simpl;
    try discriminate; auto.
  intros; congruence.
Qed.

Lemma firstn_map2 {A B C} (f : A -> B -> C) k l1 l2 :
  firstn k (map2 f l1 l2) = map2 f (firstn k l1) (firstn k l2).
Proof.
  revert l1 l2; induction k; intros [| a l1] [| b l2]; simpl; f_equal; auto.
Qed.

Lemma skipn_map2 {A B C} (f : A -> B -> C) k l1 l2 :
  skipn k (map2 f l1 l2) = map2 f (skipn k l1) (skipn k l2).
Proof.
  revert l1 l2; induction k; intros [| a l1] [| b l2]; simpl; auto.
  - now destruct (skipn k l1).
Qed.

Lemma chunks_length {A} k n (l : list A) : length (chunks k n l) = n.
Proof. revert l; induction n; simpl; auto. Qed.

Lemma chunks_map {A B} (f : A -> B) k n l :
  chunks k n (map f l) = map (map f) (chunks k n l).
Proof.
  revert l; induction n; simpl; intros; [reflexivity |].
  now rewrite firstn_map, skipn_map, IHn.
Qed.

Lemma chunks_Forall {A} k n (l : list A) :
  length l = (n * k)%nat -> Forall (fun c => length c = k) (chunks k n l).
Proof.
  revert l; induction n; simpl; intros l H; constructor.
  - rewrite length_firstn; lia.
  - apply IHn; rewrite length_skipn; lia.
Qed.

Lemma concat_chunks {A} k n (l : list A) :
  length l = (n * k)%nat -> concat (chunks k n l) = l.
Proof.
  revert l; induction n; simpl; intros l H.
  - destruct l; simpl in *; congruence.
  - rewrite IHn; [apply firstn_skipn | rewrite length_skipn; lia].
Qed.

Lemma chunks_concat {A} k (ls : list (list A)) :
  Forall (fun c => length c = k) ls -> chunks k (length ls) (concat ls) = ls.
Proof.
  induction 1 as [| c ls Hc _ IH]; simpl; [reflexivity |].
  rewrite firstn_app, skipn_app, Hc, Nat.sub_diag, firstn_all2, skipn_all2 by lia.
  simpl; rewrite app_nil_r; f_equal; exact IH.
Qed.

(** ** The engine's operators on tensors of one shape *)

Lemma pad_left_same (s : list nat) : pad_left (length s) s = s.
Proof. unfold pad_left; now rewrite Nat.sub_diag. Qed.

Lemma broadcast_dim_same (x : nat) : broadcast_dim x x = Some x.
Proof. unfold broadcast_dim; now rewrite Nat.eqb_refl. Qed.

Lemma broadcast_shape_same (s : list nat) : broadcast_shape s s = Some s.
Proof.
  induction s; simpl; [reflexivity |].
  now rewrite broadcast_dim_same, IHs.
Qed.

Lemma expand_same {A} (s : list nat) (l : list A) :
  length l = numel s -> expand s s l = l.
Proof.
  revert l; induction s as [| d s IH]; simpl; intros l H; [reflexivity |].
  rewrite Nat.eqb_refl.
  assert (Hc := chunks_Forall (numel s) d l H).
  rewrite <- (concat_chunks (numel s) d l H) at 2.
  f_equal.
  induction Hc as [| c cs Hc _ IHc]; simpl; [reflexivity |].
  now rewrite IH, IHc.
Qed.

Lemma tf_binop_same {A B C} (f : A -> B -> C) (a : Tensor A) (b : Tensor B) :
  wf a -> wf b -> shape b = shape a ->
  tf_binop f a b = Ok (mkTensor (shape a) (map2 f (data a) (data b))).
Proof.
  unfold wf, tf_binop, rank; intros Ha Hb E.
  rewrite E, Nat.max_id, pad_left_same, broadcast_shape_same.
  rewrite !expand_same by congruence.
  reflexivity.
Qed.

Lemma tf_unop_wf {A B} (f : A -> B) (a : Tensor A) : wf a -> wf (tf_unop f a).
Proof. unfold wf; simpl; now rewrite length_map. Qed.

Lemma tf_where_same {A} (c : Tensor bool) (x y : Tensor A) :
  shape y = shape x -> shape c = shape x ->
  tf_where (BoolTensor c) x y
  = Ok (mkTensor (shape x) (select (data c) (data x) (data y))).
Proof.
  unfold tf_where; intros -> ->; now rewrite !shape_eqb_refl.
Qed.

Lemma tf_where_scalar {A} (b : bool) (x y : Tensor A) :
  shape y = shape x -> tf_where (PyBool b) x y = Ok (if b then x else y).
Proof. unfold tf_where; intros ->; now rewrite shape_eqb_refl. Qed.

(** Side conditions of the lemmas above: a shape read off, or the length of
    a list built by [map] and [map2]. *)
Ltac shape_side :=
  solve [ assumption | reflexivity | symmetry; assumption
        | unfold wf in *; simpl;
          repeat (rewrite ?length_map, ?map2_length; try congruence);
          congruence ].

(** ** The masked sigmoid cross-entropy, element by element *)

Lemma select_relu (lx : list R) :
  select (map2 Rgeb lx (map (fun _ => 0) lx)) lx (map (fun _ => 0) lx)
  = map relu_logit lx.
Proof. induction lx; simpl; [reflexivity | now rewrite IHlx]. Qed.

Lemma select_neg_abs (lx : list R) :
  select (map2 Rgeb lx (map (fun _ => 0) lx)) (map Ropp lx) lx
  = map neg_abs_logit lx.
Proof. induction lx; simpl; [reflexivity | now rewrite IHlx]. Qed.

Lemma raw_loss_data (lx ly : list R) :
  map2 Rplus (map2 Rminus (map relu_logit lx) (map2 Rmult lx ly))
    (map log1p (map exp (map neg_abs_logit lx)))
  = map2 raw_loss lx ly.
Proof.
  revert ly; induction lx; intros [| y ly]; simpl; try reflexivity.
  now rewrite IHlx.
Qed.

Lemma select_masked (lx ly : list R) :
  length ly = length lx ->
  select (map (fun y => Reqb y MAGIC_NUMBER) ly) (map (fun _ => 0) lx)
    (map2 raw_loss lx ly)
  = map2 (fun x y => if Reqb y MAGIC_NUMBER then 0 else raw_loss x y) lx ly.
Proof.
  revert ly; induction lx; intros [| y ly]; simpl; try discriminate; auto.
  intros H; f_equal; apply IHlx; lia.
Qed.

(** On tensors of one shape the function returns, at every element, 0 where
    the mask holds and the sign-split loss elsewhere. *)
Lemma sigmoid_elementwise (labels logits : Tensor R) :
  wf labels -> wf logits -> shape labels = shape logits ->
  astronn_sigmoid_cross_entropy_with_logits labels logits
  = Ok (mkTensor (shape logits) (map2 sigmoid_loss (data logits) (data labels))).
Proof.
  intros Hl Hx E.
  assert (Hlen : length (data labels) = length (data logits))
    by (unfold wf in *; congruence).
  unfold astronn_sigmoid_cross_entropy_with_logits, merge_with, get_shape.
  rewrite E, shape_eqb_refl.
  unfold tf_greater_equal, tf_mul, tf_sub, tf_add.
  rewrite (tf_binop_same Rgeb) by shape_side. simpl.
  rewrite tf_where_same by reflexivity. simpl.
  rewrite tf_where_same by reflexivity. simpl.
  rewrite (tf_binop_same Rmult) by shape_side. simpl.
  rewrite select_relu, select_neg_abs.
  rewrite (tf_binop_same Rminus) by shape_side. simpl.
  rewrite (tf_binop_same Rplus) by shape_side. simpl.
  rewrite raw_loss_data.
  unfold sigmoid_loss, masked, py_eq; destruct tensor_eq.
  - rewrite tf_where_scalar by reflexivity; reflexivity.
  - rewrite tf_where_same by (simpl; auto). simpl.
    now rewrite select_masked.
Qed.

Lemma relu_logit_max (x : R) : relu_logit x = Rmax x 0.
Proof.
  unfold relu_logit, Rgeb, Rmax.
  destruct (Rge_dec x 0), (Rle_dec x 0); lra.
Qed.

Lemma neg_abs_logit_abs (x : R) : neg_abs_logit x = - Rabs x.
Proof.
  unfold neg_abs_logit, Rgeb, Rabs.
  destruct (Rge_dec x 0), (Rcase_abs x); lra.
Qed.

Lemma neg_abs_logit_nonpos (x : R) : neg_abs_logit x <= 0.
Proof. rewrite neg_abs_logit_abs; pose proof (Rabs_pos x); lra. Qed.

Lemma raw_loss_stable (x y : R) : raw_loss x y = logistic_loss x y.
Proof.
  unfold raw_loss, logistic_loss, log1p.
  rewrite relu_logit_max, neg_abs_logit_abs; lra.
Qed.

Lemma exp_nonpos_le_1 (z : R) : z <= 0 -> 0 < exp z <= 1.
Proof.
  intros Hz; split; [apply exp_pos |].
  rewrite <- exp_0; destruct Hz as [Hz | ->]; [left; now apply exp_increasing | right; reflexivity].
Qed.

Lemma log1p_unit (u : R) : 0 < u <= 1 -> 0 < log1p u <= ln 2.
Proof.
  intros [H0 H1]; unfold log1p; split.
  - rewrite <- ln_1; apply ln_increasing; lra.
  - destruct H1 as [H1 | ->].
    + left; apply ln_increasing; lra.
    + right; f_equal; lra.
Qed.

Lemma masked_non_sentinel (y : R) : y <> MAGIC_NUMBER -> masked y = false.
Proof.
  intros H; unfold masked; destruct tensor_eq; [reflexivity | now apply Reqb_false].
Qed.

(** C2: on labels and logits of one shape the masked sigmoid cross-entropy
    returns a tensor of that shape; at every element whose label is not the
    sentinel it is the sign-split value [relu_logits - logits * labels +
    log1p(exp(neg_abs_logits))], which equals
    [log(1 + exp(-|x|)) + max(x, 0) - x * y]; and for a logit in [-50, 50]
    the argument of [exp] is in [-50, 0], so that [exp] stays in (0, 1] and
    [log1p] in (0, log 2]. *)
Theorem sigmoid_cross_entropy_stable_formula (labels logits : Tensor R) :
  wf labels -> wf logits -> shape labels = shape logits ->
  exists out,
    astronn_sigmoid_cross_entropy_with_logits labels logits = Ok out /\
    shape out = shape logits /\
    forall i x y,
      nth_error (data logits) i = Some x ->
      nth_error (data labels) i = Some y ->
      y <> MAGIC_NUMBER ->
      nth_error (data out) i = Some (raw_loss x y) /\
      raw_loss x y = logistic_loss x y /\
      (-50 <= x <= 50 ->
       0 <= relu_logit x <= 50 /\
       -50 <= neg_abs_logit x <= 0 /\
       0 < exp (neg_abs_logit x) <= 1 /\
       0 < log1p (exp (neg_abs_logit x)) <= ln 2).
Proof.
  intros Hl Hx E.
  eexists; split; [apply sigmoid_elementwise; assumption |].
  split; [reflexivity |].
  intros i x y Hix Hiy Hy; simpl.
  split; [| split].
  - rewrite (map2_nth_error sigmoid_loss _ _ _ _ _ Hix Hiy).
    unfold sigmoid_loss; now rewrite masked_non_sentinel.
  - apply raw_loss_stable.
  - intros [Hlo Hhi].
    pose proof (neg_abs_logit_nonpos x) as Hn.
    pose proof (exp_nonpos_le_1 _ Hn) as He.
    repeat split; try (apply He); try (apply (log1p_unit _ He)); try exact Hn.
    + rewrite relu_logit_max; apply Rmax_r.
    + rewrite relu_logit_max; apply Rmax_lub; lra.
    + rewrite neg_abs_logit_abs.
      assert (Rabs x <= 50) by (apply Rabs_le; lra). lra.
Qed.

(** ** Reductions along the last axis *)

Lemma normalize_axis_last (r : nat) :
  normalize_axis (Z.of_nat (S r) - 1) (S r) = Some r.
Proof.
  unfold normalize_axis.
  replace (Z.of_nat (S r) - 1)%Z with (Z.of_nat r) by lia.
  destruct (Z.ltb_spec (Z.of_nat r) 0); [lia |].
  destruct (Z.leb_spec 0 (Z.of_nat r)); [| lia].
  destruct (Z.ltb_spec (Z.of_nat r) (Z.of_nat (S r))); [| lia].
  simpl; now rewrite Nat2Z.id.
Qed.

Lemma normalize_axis_minus_1 (r : nat) : normalize_axis (-1) (S r) = Some r.
Proof.
  unfold normalize_axis.
  destruct (Z.ltb_spec (-1) 0); [| lia].
  replace (-1 + Z.of_nat (S r))%Z with (Z.of_nat r) by lia.
  destruct (Z.leb_spec 0 (Z.of_nat r)); [| lia].
  destruct (Z.ltb_spec (Z.of_nat r) (Z.of_nat (S r))); [| lia].
  simpl; now rewrite Nat2Z.id.
Qed.

Lemma heads_of_singletons {A} (d : A) (n : nat) (l : list A) :
  length l = n -> map (fun line => nth 0 line d) (chunks 1 n l) = l.
Proof.
  revert l; induction n; intros [| a l]; simpl; intros H; try discriminate; auto.
  f_equal; apply IHn; lia.
Qed.

Lemma rows_last {A} (t : Tensor A) pre k :
  shape t = pre ++ [k] -> rows t = chunks k (numel pre) (data t).
Proof. unfold rows; intros ->; now rewrite last_last, removelast_last. Qed.

Lemma wf_length {A} (t : Tensor A) pre k :
  shape t = pre ++ [k] -> wf t -> length (data t) = (numel pre * k)%nat.
Proof. unfold wf; intros -> ->; rewrite numel_app; simpl; lia. Qed.

Lemma single_columns (f : list R -> R) (k : nat) (blocks : list (list R)) :
  Forall (fun c => length c = k) blocks ->
  flat_map (fun block => map f (columns 0 1 (chunks 1 k block))) blocks
  = map f blocks.
Proof.
  induction 1 as [| c cs Hcl _ IH]; [reflexivity |].
  cbn [flat_map map]; rewrite IH.
  unfold columns; cbn [seq map app].
  now rewrite (heads_of_singletons 0 _ _ Hcl).
Qed.

Lemma reduce_axis_rows (f : list R -> R) (t : Tensor R) pre k axis keepdims :
  shape t = pre ++ [k] -> wf t ->
  normalize_axis axis (rank t) = Some (length pre) ->
  reduce_axis f t axis keepdims
  = Ok (mkTensor (pre ++ (if keepdims then [1%nat] else [])) (map f (rows t))).
Proof.
  intros E H Hax; unfold reduce_axis; rewrite Hax, (rows_last _ _ _ E), E.
  rewrite firstn_app, Nat.sub_diag, firstn_all, app_nil_r; simpl firstn.
  rewrite app_nth2, Nat.sub_diag by lia; simpl nth.
  rewrite skipn_all2 by (rewrite length_app; simpl; lia).
  simpl numel; rewrite Nat.mul_1_r, app_nil_r.
  do 2 f_equal.
  apply single_columns, chunks_Forall.
  rewrite (wf_length _ _ _ E H); lia.
Qed.

Lemma reduce_last (f : list R -> R) (t : Tensor R) pre k keepdims :
  shape t = pre ++ [k] -> wf t ->
  reduce_axis f t (Z.of_nat (length (get_shape t)) - 1) keepdims
  = Ok (mkTensor (pre ++ (if keepdims then [1%nat] else [])) (map f (rows t))).
Proof.
  intros E H; apply (reduce_axis_rows f t pre k); auto.
  unfold get_shape, rank; rewrite E, length_app; simpl.
  replace (length pre + 1)%nat with (S (length pre)) by lia.
  apply normalize_axis_last.
Qed.

Lemma reduce_minus_1 (f : list R -> R) (t : Tensor R) pre k keepdims :
  shape t = pre ++ [k] -> wf t ->
  reduce_axis f t (-1) keepdims
  = Ok (mkTensor (pre ++ (if keepdims then [1%nat] else [])) (map f (rows t))).
Proof.
  intros E H; apply (reduce_axis_rows f t pre k); auto.
  unfold rank; rewrite E, length_app; simpl.
  replace (length pre + 1)%nat with (S (length pre)) by lia.
  apply normalize_axis_minus_1.
Qed.

(** ** Broadcasting a column of row values over the rows *)

Lemma broadcast_shape_column (pre : list nat) (k : nat) :
  broadcast_shape (pre ++ [k]) (pre ++ [1%nat]) = Some (pre ++ [k]).
Proof.
  induction pre as [| d pre IH]; simpl.
  - unfold broadcast_dim.
    destruct (Nat.eqb_spec k 1); [reflexivity |].
    destruct (Nat.eqb_spec k 1); [contradiction | reflexivity].
  - now rewrite broadcast_dim_same, IH.
Qed.

Lemma concat_repeat_singleton {A} (x : A) (k : nat) :
  concat (repeat [x] k) = repeat x k.
Proof. induction k; simpl; [reflexivity | now rewrite IHk]. Qed.

Lemma expand_column {A} (pre : list nat) (k : nat) (l : list A) :
  length l = numel pre ->
  expand (pre ++ [1%nat]) (pre ++ [k]) l = flat_map (fun v => repeat v k) l.
Proof.
  revert l; induction pre as [| d pre IH]; intros l H.
  - destruct l as [| x [| y l]]; simpl in H; try discriminate.
    cbn [app expand numel fold_right chunks map firstn concat flat_map].
    rewrite !app_nil_r, concat_repeat_singleton.
    destruct (Nat.eqb_spec 1 k) as [<- | _]; reflexivity.
  - cbn [app expand]; rewrite Nat.eqb_refl.
    rewrite numel_app; simpl numel at 1; rewrite Nat.mul_1_r.
    simpl in H.
    assert (Hc := chunks_Forall (numel pre) d l H).
    rewrite <- (concat_chunks (numel pre) d l H) at 2.
    rewrite flat_map_concat_map, concat_map, <- !flat_map_concat_map.
    induction Hc as [| c cs Hcl _ IHc]; simpl; [reflexivity |].
    rewrite IH by exact Hcl.
    now rewrite IHc, concat_app, flat_map_concat_map.
Qed.

Lemma tf_binop_column {A B C} (f : A -> B -> C) (a : Tensor A) (b : Tensor B)
  (pre : list nat) (k : nat) :
  shape a = pre ++ [k] -> shape b = pre ++ [1%nat] -> wf a -> wf b ->
  tf_binop f a b
  = Ok (mkTensor (pre ++ [k])
          (map2 f (data a) (flat_map (fun v => repeat v k) (data b)))).
Proof.
  unfold wf, tf_binop, rank; intros Ea Eb Ha Hb.
  rewrite Ea, Eb.
  replace (length (pre ++ [1%nat])) with (length (pre ++ [k]))
    by (rewrite !length_app; reflexivity).
  rewrite Nat.max_id, pad_left_same.
  replace (length (pre ++ [k])) with (length (pre ++ [1%nat]))
    by (rewrite !length_app; reflexivity).
  rewrite pad_left_same, broadcast_shape_column.
  rewrite expand_same by congruence.
  rewrite expand_column
    by (rewrite Hb, Eb, numel_app; simpl; lia).
  reflexivity.
Qed.

(** Dividing the rows by their sums, as one flat list. *)
Lemma divide_by_row_sums (k n : nat) (l : list R) :
  length l = (n * k)%nat ->
  map2 Rdiv l (flat_map (fun v => repeat v k) (map Rsum (chunks k n l)))
  = flat_map (fun row => map (fun v => v / Rsum row) row) (chunks k n l).
Proof.
  revert l; induction n; intros l H; simpl.
  - destruct l; [reflexivity | discriminate].
  - rewrite <- (firstn_skipn k l) at 1.
    rewrite map2_app by (rewrite length_firstn, repeat_length; lia).
    rewrite IHn by (rewrite length_skipn; lia).
    f_equal.
    assert (Hk : length (firstn k l) = k) by (rewrite length_firstn; lia).
    generalize (Rsum (firstn k l)) as s.
    revert Hk; generalize (firstn k l) as row; clear.
    induction k; intros [| v row] Hk s; simpl in *; try discriminate; auto.
    f_equal; apply IHk; lia.
Qed.

(** ** Probability mode of the categorical cross-entropy, row by row *)

Lemma map_flat_map {A B C} (f : B -> C) (h : A -> list B) (l : list A) :
  map f (flat_map h l) = flat_map (fun a => map f (h a)) l.
Proof. induction l; simpl; [reflexivity | now rewrite map_app, IHl]. Qed.

Lemma select_mask_labels (ys : list R) :
  select (map (fun y => Reqb y MAGIC_NUMBER) ys) (map (fun _ => 0) ys) ys
  = spec_mask_labels ys.
Proof. induction ys; simpl; [reflexivity | now rewrite IHys]. Qed.

Lemma masked_labels (y_true : Tensor R) :
  tf_where (BoolTensor (tf_equal y_true MAGIC_NUMBER)) (tf_zeros_like y_true)
    y_true
  = Ok (mkTensor (shape y_true) (spec_mask_labels (data y_true))).
Proof.
  rewrite tf_where_same by reflexivity; simpl.
  now rewrite select_mask_labels.
Qed.

(** Probability mode goes through the two stops. *)
Lemma probability_mode_stops (y_true y_pred : Tensor R) :
  categorical_cross_entropy y_true y_pred false
  = (y_true <- tf_where (BoolTensor (tf_equal y_true MAGIC_NUMBER))
                 (tf_zeros_like y_true) y_true ;;
     y_pred <- clipped_probabilities y_pred ;;
     terms <- tf_mul y_true (tf_log y_pred) ;;
     total <- tf_reduce_sum terms (Z.of_nat (length (get_shape y_pred)) - 1)
                false ;;
     Ok (tf_neg total)).
Proof.
  unfold categorical_cross_entropy, clipped_probabilities; cbn [negb].
  destruct (tf_where _ _ _) as [yt | e]; [| reflexivity]; cbn [bind].
  destruct (tf_reduce_sum y_pred _ true) as [total | e]; [| reflexivity].
  cbn [bind].
  destruct (tf_div y_pred total) as [yp | e]; reflexivity.
Qed.

Lemma clipped_probabilities_rows (y_pred : Tensor R) pre k :
  shape y_pred = pre ++ [k] -> wf y_pred ->
  clipped_probabilities y_pred
  = Ok (mkTensor (pre ++ [k]) (flat_map spec_log_arguments (rows y_pred))).
Proof.
  intros E H; unfold clipped_probabilities, tf_reduce_sum.
  rewrite (reduce_last Rsum y_pred pre k true E H); simpl.
  unfold tf_div.
  rewrite (tf_binop_column Rdiv _ _ pre k); auto;
    [| unfold wf; simpl;
       rewrite length_map, (rows_last _ _ _ E), chunks_length, numel_app;
       simpl; lia].
  simpl; unfold tf_clip_by_value, tf_unop; simpl.
  rewrite (rows_last _ _ _ E).
  rewrite divide_by_row_sums by (rewrite (wf_length _ _ _ E H); lia).
  now rewrite map_flat_map.
Qed.

Lemma spec_log_arguments_length (ps : list R) :
  length (spec_log_arguments ps) = length ps.
Proof.
  unfold spec_log_arguments, spec_clip, spec_renormalize.
  now rewrite !length_map.
Qed.

Lemma flat_map_rows_length {A B} (h : list A -> list B) k n (l : list A) :
  (forall c, length (h c) = length c) -> length l = (n * k)%nat ->
  length (flat_map h (chunks k n l)) = length l.
Proof.
  intros Hh; revert l; induction n; simpl; intros l H.
  - lia.
  - rewrite length_app, Hh, IHn by (rewrite length_skipn; lia).
    rewrite length_firstn, length_skipn; lia.
Qed.

Lemma terms_by_rows (k n : nat) (ys ps : list R) :
  length ys = (n * k)%nat -> length ps = (n * k)%nat ->
  map2 Rmult (spec_mask_labels ys)
    (map ln (flat_map spec_log_arguments (chunks k n ps)))
  = flat_map (fun r => spec_row_terms (fst r) (snd r))
      (combine (chunks k n ys) (chunks k n ps)).
Proof.
  revert ys ps; induction n; intros ys ps Hy Hp.
  - destruct ys; [reflexivity | discriminate].
  - cbn [chunks concat flat_map combine map fst snd].
    rewrite <- (firstn_skipn k ys) at 1.
    unfold spec_mask_labels at 1; rewrite !map_app.
    rewrite map2_app.
    + f_equal. apply IHn; rewrite length_skipn; lia.
    + rewrite !length_map, spec_log_arguments_length, !length_firstn; lia.
Qed.

Lemma cross_entropy_terms_rows (y_true y_pred : Tensor R) pre k :
  shape y_pred = pre ++ [k] -> shape y_true = shape y_pred ->
  wf y_true -> wf y_pred ->
  cross_entropy_terms y_true y_pred
  = Ok (mkTensor (pre ++ [k])
          (flat_map (fun r => spec_row_terms (fst r) (snd r))
             (combine (rows y_true) (rows y_pred)))).
Proof.
  intros E Et Ht Hp; unfold cross_entropy_terms.
  rewrite masked_labels; simpl.
  rewrite (clipped_probabilities_rows y_pred pre k E Hp); simpl.
  assert (Elt : shape y_true = pre ++ [k]) by congruence.
  assert (Hlt := wf_length _ _ _ Elt Ht).
  assert (Hlp := wf_length _ _ _ E Hp).
  unfold tf_mul; rewrite tf_binop_same; simpl.
  - rewrite Et, E; do 2 f_equal.
    rewrite (rows_last _ _ _ E), (rows_last _ _ _ Elt).
    apply terms_by_rows; lia.
  - unfold wf; simpl; unfold spec_mask_labels; rewrite length_map; exact Ht.
  - unfold wf; simpl; rewrite length_map, (rows_last _ _ _ E).
    rewrite (flat_map_rows_length _ _ _ _ spec_log_arguments_length)
      by (rewrite Hlp; lia).
    rewrite Hlp, numel_app; simpl; lia.
  - simpl; congruence.
Qed.

Lemma map_combine_map2 {A B C} (f : A -> B -> C) (l1 : list A) (l2 : list B) :
  map (fun r => f (fst r) (snd r)) (combine l1 l2) = map2 f l1 l2.
Proof. revert l2; induction l1; intros [| b l2]; simpl; f_equal; auto. Qed.

Lemma combine_rows_Forall (ys ps : list R) (k n : nat) :
  length ys = (n * k)%nat -> length ps = (n * k)%nat ->
  Forall (fun r => length (spec_row_terms (fst r) (snd r)) = k)
    (combine (chunks k n ys) (chunks k n ps)).
Proof.
  revert ys ps; induction n; intros ys ps Hy Hp; simpl; constructor.
  - simpl; unfold spec_row_terms, spec_mask_labels.
    rewrite map2_length; rewrite !length_map, ?spec_log_arguments_length,
      !length_firstn; lia.
  - apply IHn; rewrite length_skipn; lia.
Qed.

Lemma concat_length_rows {A} (k : nat) (ls : list (list A)) :
  Forall (fun c => length c = k) ls ->
  length (concat ls) = (length ls * k)%nat.
Proof.
  induction 1 as [| c cs Hc _ IH]; simpl; [reflexivity |].
  rewrite length_app, IH, Hc; lia.
Qed.

(** A tensor given by its rows. *)
Lemma tensor_of_rows {A} (pre : list nat) (k : nat) (ls : list (list A)) :
  Forall (fun c => length c = k) ls -> length ls = numel pre ->
  wf (mkTensor (pre ++ [k]) (concat ls)) /\
  rows (mkTensor (pre ++ [k]) (concat ls)) = ls.
Proof.
  intros HF Hn; split.
  - unfold wf; simpl.
    rewrite (concat_length_rows k ls HF), numel_app, Hn; simpl; lia.
  - unfold rows; simpl; rewrite last_last, removelast_last, <- Hn.
    now apply chunks_concat.
Qed.

(** Probability mode returns the specification's row losses. *)
Lemma categorical_probability_mode (y_true y_pred : Tensor R) pre k :
  shape y_pred = pre ++ [k] -> shape y_true = shape y_pred ->
  wf y_true -> wf y_pred ->
  categorical_cross_entropy y_true y_pred false
  = Ok (spec_categorical_cross_entropy y_true y_pred).
Proof.
  intros E Et Ht Hp.
  assert (Elt : shape y_true = pre ++ [k]) by congruence.
  assert (Hlt := wf_length _ _ _ Elt Ht).
  assert (Hlp := wf_length _ _ _ E Hp).
  pose proof (cross_entropy_terms_rows y_true y_pred pre k E Et Ht Hp) as Hterms.
  unfold cross_entropy_terms in Hterms.
  rewrite probability_mode_stops.
  rewrite masked_labels in *; cbn [bind] in *.
  rewrite (clipped_probabilities_rows y_pred pre k E Hp) in *; cbn [bind] in *.
  rewrite Hterms; cbn [bind]; unfold tf_reduce_sum, get_shape; cbn [shape].
  rewrite flat_map_concat_map.
  destruct (tensor_of_rows pre k
              (map (fun r => spec_row_terms (fst r) (snd r))
                 (combine (rows y_true) (rows y_pred)))) as [Hwf Hrows].
  { apply Forall_map.
    rewrite (rows_last _ _ _ E), (rows_last _ _ _ Elt).
    apply combine_rows_Forall; lia. }
  { rewrite length_map, length_combine.
    rewrite (rows_last _ _ _ E), (rows_last _ _ _ Elt), !chunks_length; lia. }
  pose proof (fun e => reduce_last Rsum _ pre k false e Hwf) as Hred.
  unfold get_shape in Hred; cbn [shape] in Hred.
  rewrite (Hred eq_refl), Hrows.
  cbn [bind]; unfold spec_categorical_cross_entropy, tf_neg, tf_unop; simpl.
  rewrite E, removelast_last, app_nil_r, !map_map.
  do 2 f_equal.
  exact (map_combine_map2 spec_cross_entropy_row _ _).
Qed.

(** ** Probability mode: the steps, the sentinel, the scale *)

(** C5: with [from_logits=False], on labels and predictions of one shape
    with a last axis, the function returns the result of the four steps in
    order: sentinel labels replaced by 0, predictions divided by their sum
    along the last axis (whatever that sum is), clipped into
    [epsilon, 1 - epsilon], and [- sum(y_true * log(y_pred))] over the last
    axis; the result has one axis less than the input. *)
Theorem categorical_cross_entropy_probability_steps (y_true y_pred : Tensor R) :
  shape y_pred <> [] -> shape y_true = shape y_pred ->
  wf y_true -> wf y_pred ->
  categorical_cross_entropy y_true y_pred false
  = Ok (spec_categorical_cross_entropy y_true y_pred) /\
  S (rank (spec_categorical_cross_entropy y_true y_pred)) = rank y_pred.
Proof.
  intros Hne Et Ht Hp.
  destruct (exists_last Hne) as (pre & k & E).
  split.
  - now apply (categorical_probability_mode y_true y_pred pre k).
  - unfold rank, spec_categorical_cross_entropy; simpl.
    rewrite E, removelast_last, length_app; simpl; lia.
Qed.


Lemma nth_error_in_range {A} (l : list A) (i : nat) :
  (i < length l)%nat -> exists a, nth_error l i = Some a.
Proof.
  intros H; destruct (nth_error l i) eqn:E; [eauto |].
  apply nth_error_None in E; lia.
Qed.


(** X5: With element-wise tensor equality the masked sigmoid cross-entropy is 0
    at every element whose label is the sentinel. *)
Lemma sigmoid_sentinel_zero_elementwise (labels logits : Tensor R) (i : nat) :
  tensor_eq = ElementWise ->
  wf labels -> wf logits -> shape labels = shape logits ->
  nth_error (data labels) i = Some MAGIC_NUMBER ->
  exists out,
    astronn_sigmoid_cross_entropy_with_logits labels logits = Ok out /\
    nth_error (data out) i = Some 0.
Proof.
  intros Hm Hl Hx E Hi.
  eexists; split; [apply sigmoid_elementwise; assumption |]; simpl.
  destruct (nth_error_in_range (data logits) i) as [x Hix].
  { unfold wf in *; rewrite Hx, <- E, <- Hl; apply nth_error_Some; congruence. }
  rewrite (map2_nth_error sigmoid_loss _ _ _ _ _ Hix Hi).
  unfold sigmoid_loss, masked; rewrite Hm, Reqb_true; reflexivity.
Qed.

(** With object identity the comparison is [False] and every element gets
    the sign-split loss, the sentinel's included. *)
Lemma sigmoid_no_mask_object_identity (labels logits : Tensor R) :
  tensor_eq = ObjectIdentity ->
  wf labels -> wf logits -> shape labels = shape logits ->
  astronn_sigmoid_cross_entropy_with_logits labels logits
  = Ok (mkTensor (shape logits) (map2 raw_loss (data logits) (data labels))).
Proof.
  intros Hm Hl Hx E; rewrite sigmoid_elementwise by assumption.
  do 2 f_equal; apply map2_ext; intros x y.
  unfold sigmoid_loss, masked; now rewrite Hm.
Qed.

(** *** Rescaled predictions *)

Lemma Rsum_scale (k : R) (l : list R) : Rsum (map (Rmult k) l) = k * Rsum l.
Proof. induction l; simpl; [lra | rewrite IHl; lra]. Qed.

Lemma columns_scale (k : R) (inner : nat) (lines : list (list R)) :
  columns 0 inner (map (map (Rmult k)) lines)
  = map (map (Rmult k)) (columns 0 inner lines).
Proof.
  unfold columns; rewrite map_map; apply map_ext; intros i.
  rewrite !map_map; apply map_ext; intros line.
  replace 0 with (k * 0) at 1 by lra.
  apply map_nth.
Qed.

Lemma flat_map_map {A B C} (h : A -> B) (g : B -> list C) (l : list A) :
  flat_map g (map h l) = flat_map (fun a => g (h a)) l.
Proof. induction l; simpl; [reflexivity | now rewrite IHl]. Qed.

Lemma reduce_axis_scale (k : R) (t : Tensor R) (axis : Z) (keepdims : bool) :
  reduce_axis Rsum (tf_unop (Rmult k) t) axis keepdims
  = (total <- reduce_axis Rsum t axis keepdims ;; Ok (tf_unop (Rmult k) total)).
Proof.
  unfold reduce_axis, rank; simpl.
  destruct (normalize_axis axis (length (shape t))) as [ax |]; [| reflexivity].
  simpl; unfold tf_unop; simpl; do 2 f_equal.
  rewrite chunks_map, flat_map_map, map_flat_map.
  apply flat_map_ext; intros block.
  rewrite chunks_map, columns_scale, !map_map.
  apply map_ext; intros c; apply Rsum_scale.
Qed.

Lemma repeat_map {A B} (f : A -> B) (x : A) (n : nat) :
  repeat (f x) n = map f (repeat x n).
Proof. induction n; simpl; [reflexivity | now rewrite IHn]. Qed.

Lemma expand_map {A B} (f : A -> B) (s tgt : list nat) (l : list A) :
  expand s tgt (map f l) = map f (expand s tgt l).
Proof.
  revert tgt l; induction s as [| d s IH]; intros [| D tgt] l; try reflexivity.
  cbn [expand].
  assert (E : map (expand s tgt) (chunks (numel s) d (map f l))
              = map (map f) (map (expand s tgt) (chunks (numel s) d l))).
  { rewrite chunks_map, !map_map; apply map_ext; intros c; apply IH. }
  rewrite E.
  destruct (d =? D)%nat.
  - now rewrite concat_map.
  - rewrite <- concat_map, repeat_map, <- concat_map; reflexivity.
Qed.

Lemma Rdiv_scale (k u v : R) : k <> 0 -> (k * u) / (k * v) = u / v.
Proof.
  intros Hk; destruct (Req_dec_T v 0) as [-> | Hv].
  - unfold Rdiv; rewrite Rmult_0_r, Rinv_0; lra.
  - field; auto.
Qed.

Lemma tf_div_scale (k : R) (a b : Tensor R) :
  k <> 0 ->
  tf_div (tf_unop (Rmult k) a) (tf_unop (Rmult k) b) = tf_div a b.
Proof.
  intros Hk; unfold tf_div, tf_binop, rank; simpl.
  destruct (broadcast_shape _ _) as [s |]; [| reflexivity].
  rewrite !expand_map, map2_map_l, map2_map_r.
  do 2 f_equal; apply map2_ext; intros u v; now apply Rdiv_scale.
Qed.

Lemma clipped_probabilities_scale (k : R) (y_pred : Tensor R) :
  k <> 0 ->
  clipped_probabilities (tf_unop (Rmult k) y_pred)
  = clipped_probabilities y_pred.
Proof.
  intros Hk; unfold clipped_probabilities, tf_reduce_sum, get_shape; simpl.
  rewrite reduce_axis_scale.
  destruct (reduce_axis Rsum y_pred _ true) as [total | e]; [| reflexivity].
  cbn [bind]; now rewrite tf_div_scale.
Qed.

(** C6: with [from_logits=False], multiplying the predictions by a positive
    scalar [k] leaves the result unchanged, for every [y_true] and [y_pred]. *)
Theorem categorical_cross_entropy_scale_invariant
  (k : R) (y_true y_pred : Tensor R) :
  0 < k ->
  categorical_cross_entropy y_true (tf_unop (Rmult k) y_pred) false
  = categorical_cross_entropy y_true y_pred false.
Proof.
  intros Hk; rewrite !probability_mode_stops.
  rewrite clipped_probabilities_scale by lra.
  reflexivity.
Qed.

(** *** The argument of the logarithm *)

Lemma clip_bounds (lo hi x : R) : lo <= hi -> lo <= clip lo hi x <= hi.
Proof.
  intros H; unfold clip; split.
  - apply Rmax_r.
  - apply Rmax_lub; [apply Rmin_r | exact H].
Qed.

Lemma ln_monotone (x y : R) : 0 < x -> x <= y -> ln x <= ln y.
Proof.
  intros Hx [H | ->]; [left; now apply ln_increasing | right; reflexivity].
Qed.

Lemma ln_clipped (a : R) :
  0 < epsilon -> epsilon <= a <= 1 - epsilon ->
  ln epsilon <= ln a /\ ln a < 0 /\ Rabs (ln a) <= - ln epsilon.
Proof.
  intros He [Hlo Hhi].
  assert (H1 : ln epsilon <= ln a) by (apply ln_monotone; lra).
  assert (H2 : ln a < 0) by (rewrite <- ln_1; apply ln_increasing; lra).
  repeat split; auto.
  rewrite Rabs_left by exact H2; lra.
Qed.

Lemma spec_log_arguments_bounds (ps : list R) :
  epsilon <= 1 - epsilon ->
  Forall (fun a => epsilon <= a <= 1 - epsilon) (spec_log_arguments ps).
Proof.
  intros H; unfold spec_log_arguments, spec_clip.
  apply Forall_map, Forall_forall; intros a _; now apply clip_bounds.
Qed.

Lemma weighted_sum_bound (B : R) (ws ls : list R) :
  0 <= B -> Forall (fun l => Rabs l <= B) ls ->
  Rabs (Rsum (map2 Rmult ws ls)) <= Rsum (map Rabs ws) * B.
Proof.
  intros HB HF; revert ws; induction HF as [| l ls Hl _ IH]; intros [| w ws];
    simpl; try (rewrite Rabs_R0; lra).
  - rewrite Rabs_R0.
    assert (0 <= Rsum (map Rabs ws)).
    { clear; induction ws; simpl; [lra | pose proof (Rabs_pos a); lra]. }
    pose proof (Rabs_pos w); nra.
  - eapply Rle_trans; [apply Rabs_triang |].
    rewrite Rabs_mult.
    specialize (IH ws).
    pose proof (Rabs_pos w); nra.
Qed.

Lemma spec_cross_entropy_row_bounded (ys ps : list R) :
  0 < epsilon -> epsilon <= 1 - epsilon ->
  Rabs (spec_cross_entropy_row ys ps)
  <= Rsum (map Rabs (spec_mask_labels ys)) * (- ln epsilon).
Proof.
  intros He Hh; unfold spec_cross_entropy_row, spec_row_terms.
  rewrite Rabs_Ropp.
  apply weighted_sum_bound.
  - assert (ln epsilon < 0) by (rewrite <- ln_1; apply ln_increasing; lra). lra.
  - apply Forall_map.
    eapply Forall_impl; [| apply spec_log_arguments_bounds; exact Hh].
    intros a Ha; now apply ln_clipped.
Qed.

Lemma spec_renormalize_sums_to_1 (ps : list R) :
  Rsum ps <> 0 -> Rsum (spec_renormalize ps) = 1.
Proof.
  intros H; unfold spec_renormalize.
  assert (E : forall l s, Rsum (map (fun p => p / s) l) = Rsum l / s).
  { induction l; intros s; simpl; [lra | rewrite IHl; lra]. }
  rewrite E; now field.
Qed.

(** C10: with [from_logits=False], on inputs of one shape whose rows have a
    strictly positive sum, every row is divided by a non-zero sum and then
    sums to 1, every value handed to the logarithm lies in
    [epsilon, 1 - epsilon] and is positive, and the function returns a loss
    whose every element is bounded by the sum of the absolute labels of its
    row times [- log epsilon]. *)
Theorem categorical_cross_entropy_log_is_safe (y_true y_pred : Tensor R) :
  0 < epsilon -> epsilon <= 1 - epsilon ->
  shape y_pred <> [] -> shape y_true = shape y_pred ->
  wf y_true -> wf y_pred ->
  Forall (fun ps => 0 < Rsum ps) (rows y_pred) ->
  Forall (fun ps => Rsum (spec_renormalize ps) = 1) (rows y_pred) /\
  (exists p,
     clipped_probabilities y_pred = Ok p /\
     shape p = shape y_pred /\
     Forall (fun a => epsilon <= a <= 1 - epsilon /\ 0 < a /\
                      ln epsilon <= ln a < 0) (data p)) /\
  (exists out,
     categorical_cross_entropy y_true y_pred false = Ok out /\
     forall r ys ps,
       nth_error (rows y_true) r = Some ys ->
       nth_error (rows y_pred) r = Some ps ->
       exists l,
         nth_error (data out) r = Some l /\
         Rabs l <= Rsum (map Rabs (spec_mask_labels ys)) * (- ln epsilon)).
Proof.
  intros He Hh Hne Et Ht Hp Hpos.
  destruct (exists_last Hne) as (pre & k & E).
  split; [| split].
  - eapply Forall_impl; [| exact Hpos].
    intros ps Hps; apply spec_renormalize_sums_to_1; lra.
  - eexists; split; [apply (clipped_probabilities_rows y_pred pre k E Hp) |].
    split; [simpl; congruence |]; simpl.
    rewrite flat_map_concat_map; apply Forall_concat, Forall_map.
    apply Forall_forall; intros ps _.
    eapply Forall_impl; [| apply spec_log_arguments_bounds; exact Hh].
    intros a Ha; destruct (ln_clipped a He Ha) as (H1 & H2 & _).
    repeat split; try apply Ha; auto; lra.
  - eexists; split;
      [apply (categorical_probability_mode y_true y_pred pre k); auto |].
    intros r ys ps Hys Hps; simpl.
    eexists; split;
      [apply (map2_nth_error spec_cross_entropy_row _ _ _ _ _ Hys Hps) |].
    now apply spec_cross_entropy_row_bounded.
Qed.

(** ** Logit mode of the categorical cross-entropy *)

Lemma logit_mode_is_primitive (y_true y_pred : Tensor R) :
  categorical_cross_entropy y_true y_pred true
  = tf_nn_softmax_cross_entropy_with_logits y_true y_pred.
Proof.
  unfold categorical_cross_entropy; simpl; destruct has_v2; reflexivity.
Qed.

(** C7: with [from_logits=True] the function is the engine's softmax
    cross-entropy with logits on [labels=y_true], [logits=y_pred], whichever
    of the two primitives [tf.nn] offers; the labels go in as they are, so a
    sentinel label is not masked: on labels [[MAGIC_NUMBER, 0]] and logits
    [[0, 0]] the loss is [MAGIC_NUMBER * log 2]. *)
Theorem categorical_cross_entropy_logit_mode :
  (forall y_true y_pred : Tensor R,
     categorical_cross_entropy y_true y_pred true
     = tf_nn_softmax_cross_entropy_with_logits y_true y_pred) /\
  categorical_cross_entropy (mkTensor [1; 2]%nat [MAGIC_NUMBER; 0])
    (mkTensor [1; 2]%nat [0; 0]) true
  = Ok (mkTensor [1%nat] [MAGIC_NUMBER * ln 2]).
Proof.
  split; [exact logit_mode_is_primitive |].
  rewrite logit_mode_is_primitive.
  unfold tf_nn_softmax_cross_entropy_with_logits; simpl.
  unfold rows, softmax_xent_row, log_softmax; simpl.
  rewrite exp_0; do 3 f_equal.
  replace (1 + (1 + 0)) with 2 by lra; lra.
Qed.

(** ** The shape check *)

(** C9: on labels and logits of different shapes the function raises
    [ValueError] and computes nothing; its message holds the shape of the
    logits in both places, and the shape of the labels nowhere: for logits
    of shape (2, 3) and labels of shape (2, 2) it reads
    [((2, 3) vs (2, 3))]. *)
Theorem shape_mismatch_message_repeats_logits_shape :
  (forall labels logits : Tensor R,
     shape labels <> shape logits ->
     astronn_sigmoid_cross_entropy_with_logits labels logits
     = Raise (ValueError
                ("logits and labels must have the same shape ("
                 ++ str_shape (shape logits) ++ " vs "
                 ++ str_shape (shape logits) ++ ")"))) /\
  astronn_sigmoid_cross_entropy_with_logits
    (mkTensor [2; 2]%nat [0; 0; 0; 0]) (mkTensor [2; 3]%nat [0; 0; 0; 0; 0; 0])
  = Raise (ValueError
             "logits and labels must have the same shape ((2, 3) vs (2, 3))").
Proof.
  split.
  - intros labels logits H.
    unfold astronn_sigmoid_cross_entropy_with_logits, merge_with, get_shape.
    rewrite (shape_eqb_neq _ _ H); reflexivity.
  - reflexivity.
Qed.

(** ** The binary cross-entropy *)

Lemma mean_of_losses (losses : Tensor R) pre k :
  shape losses = pre ++ [k] -> wf losses ->
  tf_reduce_mean losses (-1) = Ok (mkTensor pre (map Rmean (rows losses))).
Proof.
  intros E H; unfold tf_reduce_mean.
  rewrite (reduce_minus_1 Rmean losses pre k false E H).
  now rewrite app_nil_r.
Qed.

(** With logits, the mean over the last axis of the element-wise losses. *)
Lemma binary_cross_entropy_logit_mode (y_true y_pred : Tensor R) pre k :
  shape y_pred = pre ++ [k] -> shape y_true = shape y_pred ->
  wf y_true -> wf y_pred ->
  binary_cross_entropy y_true y_pred true
  = Ok (mkTensor pre
          (map Rmean
             (rows (mkTensor (shape y_pred)
                      (map2 sigmoid_loss (data y_pred) (data y_true)))))).
Proof.
  intros E Et Ht Hp; unfold binary_cross_entropy, binary_inputs; simpl.
  rewrite sigmoid_elementwise by assumption; cbn [bind].
  apply (mean_of_losses _ pre k); [exact E |].
  unfold wf in *; simpl; rewrite map2_length; congruence.
Qed.

(** With probabilities, the same on the logits of the clipped predictions
    and on labels whose sentinels have become 0. *)
Lemma binary_cross_entropy_probability_mode (y_true y_pred : Tensor R) pre k :
  shape y_pred = pre ++ [k] -> shape y_true = shape y_pred ->
  wf y_true -> wf y_pred ->
  binary_cross_entropy y_true y_pred false
  = Ok (mkTensor pre
          (map Rmean
             (rows (mkTensor (shape y_pred)
                      (map2 sigmoid_loss
                         (map (fun p => logit (clip epsilon (1 - epsilon) p))
                            (data y_pred))
                         (spec_mask_labels (data y_true))))))).
Proof.
  intros E Et Ht Hp; unfold binary_cross_entropy, binary_inputs; cbn [negb].
  rewrite masked_labels; cbn [bind].
  unfold tf_div; rewrite tf_binop_same;
    [| apply tf_unop_wf; exact Hp | do 2 apply tf_unop_wf; exact Hp | reflexivity].
  cbn [bind fst snd].
  rewrite sigmoid_elementwise;
    [| unfold wf in *; simpl; unfold spec_mask_labels;
       rewrite length_map; exact Ht
     | unfold wf in *; simpl; rewrite length_map, map2_length;
       rewrite !length_map; auto
     | simpl; exact Et].
  cbn [bind].
  assert (Ed : data (tf_log
                 (mkTensor (shape (tf_clip_by_value y_pred epsilon (1 - epsilon)))
                    (map2 Rdiv
                       (data (tf_clip_by_value y_pred epsilon (1 - epsilon)))
                       (data (tf_unop (fun p => 1 - p)
                          (tf_clip_by_value y_pred epsilon (1 - epsilon)))))))
               = map (fun p => logit (clip epsilon (1 - epsilon) p)) (data y_pred)).
  { simpl; rewrite map2_map_r, map2_diag, !map_map; reflexivity. }
  rewrite Ed; simpl shape.
  apply (mean_of_losses _ pre k); [exact E |].
  unfold wf in *; simpl; unfold spec_mask_labels.
  rewrite map2_length; rewrite !length_map; congruence.
Qed.

Lemma clip_in_range (lo hi p : R) : lo <= p <= hi -> clip lo hi p = p.
Proof.
  intros [H1 H2]; unfold clip.
  rewrite Rmin_left by exact H2; now rewrite Rmax_left.
Qed.

(** X13: The two modes agree on labels without a sentinel and probabilities
    that the clipping leaves alone. *)
Lemma binary_cross_entropy_modes_agree (y_true y_pred : Tensor R) :
  shape y_pred <> [] -> shape y_true = shape y_pred ->
  wf y_true -> wf y_pred ->
  Forall (fun y => y <> MAGIC_NUMBER) (data y_true) ->
  Forall (fun p => epsilon <= p <= 1 - epsilon) (data y_pred) ->
  binary_cross_entropy y_true y_pred false
  = binary_cross_entropy y_true (tf_unop logit y_pred) true.
Proof.
  intros Hne Et Ht Hp Hy Hr.
  destruct (exists_last Hne) as (pre & k & E).
  rewrite (binary_cross_entropy_probability_mode y_true y_pred pre k)
    by assumption.
  rewrite (binary_cross_entropy_logit_mode y_true (tf_unop logit y_pred) pre k);
    [| exact E | exact Et | exact Ht | apply tf_unop_wf; exact Hp ].
  simpl; do 6 f_equal.
  - apply map_ext_in; intros p Hin.
    rewrite clip_in_range; [reflexivity |].
    rewrite Forall_forall in Hr; now apply Hr.
  - unfold spec_mask_labels.
    rewrite <- (map_id (data y_true)) at 2.
    apply map_ext_in; intros y Hin.
    rewrite Reqb_false; [reflexivity |].
    rewrite Forall_forall in Hy; now apply Hy.
Qed.

(** ** The Bayesian cross-entropy *)

(** [num_classes] is the size of the second axis of [y_pred] itself. *)
Lemma bayes_num_classes_is_width (y_pred : Tensor R) d0 d1 rest :
  shape y_pred = d0 :: d1 :: rest -> bayes_num_classes y_pred = Ok d1.
Proof. unfold bayes_num_classes, tf_shape_at; now intros ->. Qed.

(** The index [num_classes] is one past the last column. *)
Lemma bayes_variance_out_of_bounds (y_pred : Tensor R) d0 d1 rest :
  shape y_pred = d0 :: d1 :: rest ->
  bayes_variance y_pred
  = Raise (InvalidArgumentError "slice index out of bounds").
Proof.
  intros E; unfold bayes_variance.
  rewrite (bayes_num_classes_is_width y_pred d0 d1 rest E); cbn [bind].
  unfold index_axis1; rewrite E, Nat.ltb_irrefl; reflexivity.
Qed.

Lemma bayes_variance_raises (y_pred : Tensor R) :
  exists e, bayes_variance y_pred = Raise e.
Proof.
  destruct (shape y_pred) as [| d0 [| d1 rest]] eqn:E.
  - unfold bayes_variance, bayes_num_classes, tf_shape_at; rewrite E; simpl; eauto.
  - unfold bayes_variance, bayes_num_classes, tf_shape_at; rewrite E; simpl; eauto.
  - rewrite (bayes_variance_out_of_bounds y_pred d0 d1 rest E); eauto.
Qed.

Lemma whole_blocks {A} (m n : nat) (l : list A) :
  length l = (n * m)%nat ->
  flat_map (fun block => firstn m (skipn 0 block)) (chunks m n l) = l.
Proof.
  intros H.
  rewrite <- (concat_chunks m n l H) at 2.
  rewrite flat_map_concat_map; f_equal.
  rewrite <- (map_id (chunks m n l)) at 2.
  apply map_ext_in; intros c Hc; simpl.
  apply firstn_all2.
  pose proof (chunks_Forall m n l H) as HF.
  rewrite Forall_forall in HF; rewrite (HF c Hc); lia.
Qed.

(** The slice [0:num_classes] is every column of [y_pred]. *)
Lemma bayes_pred_is_y_pred (y_pred : Tensor R) d0 d1 rest :
  shape y_pred = d0 :: d1 :: rest -> wf y_pred ->
  bayes_pred y_pred = Ok y_pred.
Proof.
  intros E H; unfold bayes_pred.
  rewrite (bayes_num_classes_is_width y_pred d0 d1 rest E); cbn [bind].
  unfold slice_axis1; rewrite E.
  rewrite Nat.min_id, Nat.min_0_l, Nat.sub_0_r, Nat.mul_0_l.
  rewrite whole_blocks by (unfold wf in H; rewrite H, E; simpl; lia).
  destruct y_pred as [s d]; simpl in *; now subst.
Qed.

(** A tensor has no [sample]: the first iteration of the loop raises. *)
Lemma bayes_monte_carlo_results_raises
  (from_logits : bool) (g : RNG) (y_true y_pred : Tensor R) :
  exists e, bayes_monte_carlo_results from_logits g y_true y_pred = Raise e.
Proof.
  unfold bayes_monte_carlo_results.
  destruct (bayes_pred y_pred) as [pred | e]; [| simpl; eauto].
  cbn [bind].
  destruct (bayes_undistorted_loss from_logits y_true y_pred) as [u | e];
    [| simpl; eauto].
  cbn [bind].
  destruct (bayes_num_classes y_pred) as [n | e]; [| simpl; eauto].
  simpl; eauto.
Qed.

Lemma map_fn_loop_length fn (elems : list R) (g : RNG) rs :
  map_fn_loop fn elems g = Ok rs -> length (fst rs) = length elems.
Proof.
  revert g rs; induction elems as [| e elems IH]; intros g rs; simpl.
  - intros H; injection H as <-; reflexivity.
  - destruct (fn e g) as [r | x]; simpl; [| discriminate].
    destruct (map_fn_loop fn elems (snd r)) as [rs' | x] eqn:E; simpl;
      [| discriminate].
    intros H; injection H as <-; simpl; f_equal; eauto.
Qed.

(** C3: for every input the function that [bayesian_crossentropy_wrapper]
    returns raises instead of returning
    [variance_loss + undistorted_loss + variance_depressor]: [variance] is
    read at the index [tf.shape(y_pred)[1]], one past the last column, and
    [norm_dist] is the tensor that [tf.random_normal] returns, on which the
    Monte Carlo step calls [sample].  The loop is over [tf.ones(T)] with
    [T = 25]. *)
Theorem bayesian_crossentropy_never_returns
  (from_logits : bool) (g : RNG) (y_true y_pred : Tensor R) :
  (exists e, bayes_variance y_pred = Raise e) /\
  (exists e, bayes_monte_carlo_results from_logits g y_true y_pred = Raise e) /\
  (exists e,
     bayesian_crossentropy_wrapper from_logits g y_true y_pred = Raise e) /\
  length (data bayes_iterable) = 25%nat.
Proof.
  split; [apply bayes_variance_raises |].
  split; [apply bayes_monte_carlo_results_raises |].
  split; [| reflexivity].
  unfold bayesian_crossentropy_wrapper, bayesian_crossentropy,
    bayes_variance_loss.
  destruct (bayes_monte_carlo_results_raises from_logits g y_true y_pred)
    as [e ->].
  simpl; eauto.
Qed.

(** ** Further properties of the masked sigmoid cross-entropy *)

Lemma ln_sigmoid (x : R) : ln (sigmoid x) = - ln (1 + exp (- x)).
Proof.
  unfold sigmoid; apply ln_Rinv.
  pose proof (exp_pos (- x)); lra.
Qed.

Lemma ln_one_minus_sigmoid (x : R) :
  ln (1 - sigmoid x) = - x - ln (1 + exp (- x)).
Proof.
  unfold sigmoid.
  pose proof (exp_pos (- x)) as He.
  replace (1 - / (1 + exp (- x))) with (exp (- x) * / (1 + exp (- x)))
    by (field; lra).
  rewrite ln_mult, ln_exp, ln_Rinv; try lra.
  apply Rinv_0_lt_compat; lra.
Qed.

Lemma softplus_flip (x : R) : ln (1 + exp x) = x + ln (1 + exp (- x)).
Proof.
  pose proof (exp_pos x) as He; pose proof (exp_pos (- x)) as Hn.
  rewrite <- (ln_exp x) at 2.
  rewrite <- ln_mult by lra.
  f_equal.
  rewrite Rmult_plus_distr_l, <- exp_plus, Rplus_opp_r, exp_0; lra.
Qed.

Lemma raw_loss_is_cross_entropy (x y : R) :
  raw_loss x y = bernoulli_cross_entropy x y.
Proof.
  unfold bernoulli_cross_entropy.
  rewrite ln_sigmoid, ln_one_minus_sigmoid.
  unfold raw_loss, relu_logit, neg_abs_logit, log1p, Rgeb.
  destruct (Rge_dec x 0); [lra |].
  rewrite softplus_flip; lra.
Qed.

(** X1: The masked sigmoid cross-entropy is the cross-entropy of the label
    against the sigmoid of the logit, at every element whose label is not
    the sentinel. *)
Theorem sigmoid_cross_entropy_of_sigmoid (labels logits : Tensor R) :
  wf labels -> wf logits -> shape labels = shape logits ->
  exists out,
    astronn_sigmoid_cross_entropy_with_logits labels logits = Ok out /\
    forall i x y,
      nth_error (data logits) i = Some x ->
      nth_error (data labels) i = Some y ->
      y <> MAGIC_NUMBER ->
      nth_error (data out) i = Some (bernoulli_cross_entropy x y).
Proof.
  intros Hl Hx E.
  eexists; split; [apply sigmoid_elementwise; assumption |].
  intros i x y Hix Hiy Hy; simpl.
  rewrite (map2_nth_error sigmoid_loss _ _ _ _ _ Hix Hiy).
  unfold sigmoid_loss; rewrite masked_non_sentinel by exact Hy.
  now rewrite raw_loss_is_cross_entropy.
Qed.

Lemma raw_loss_pos (x y : R) : 0 <= y <= 1 -> 0 < raw_loss x y.
Proof.
  intros [H0 H1]; unfold raw_loss.
  pose proof (log1p_unit _ (exp_nonpos_le_1 _ (neg_abs_logit_nonpos x))) as Hl.
  assert (0 <= relu_logit x - x * y).
  { unfold relu_logit, Rgeb; destruct (Rge_dec x 0); nra. }
  lra.
Qed.

Lemma Forall_map2 {A B C} (P : C -> Prop) (Q : B -> Prop) (f : A -> B -> C)
  (l1 : list A) (l2 : list B) :
  (forall a b, Q b -> P (f a b)) -> Forall Q l2 -> Forall P (map2 f l1 l2).
Proof.
  intros H HQ; revert l1; induction HQ as [| b l2 Hb _ IH]; intros [| a l1];
    simpl; constructor; auto.
Qed.

(** X2: On labels between 0 and 1 no element of the masked sigmoid
    cross-entropy is negative. *)
Theorem sigmoid_cross_entropy_nonnegative (labels logits : Tensor R) :
  wf labels -> wf logits -> shape labels = shape logits ->
  Forall (fun y => 0 <= y <= 1) (data labels) ->
  exists out,
    astronn_sigmoid_cross_entropy_with_logits labels logits = Ok out /\
    Forall (fun l => 0 <= l) (data out).
Proof.
  intros Hl Hx E Hy.
  eexists; split; [apply sigmoid_elementwise; assumption |]; simpl.
  apply (Forall_map2 _ (fun y => 0 <= y <= 1)); [| exact Hy].
  intros x y Hr; unfold sigmoid_loss.
  destruct (masked y); [lra |].
  left; now apply raw_loss_pos.
Qed.

(** X3: The function returns exactly when the labels and the logits have the
    same shape. *)
Theorem sigmoid_returns_iff_same_shape (labels logits : Tensor R) :
  wf labels -> wf logits ->
  (exists out, astronn_sigmoid_cross_entropy_with_logits labels logits = Ok out)
  <-> shape labels = shape logits.
Proof.
  intros Hl Hx; split.
  - intros [out Hout].
    destruct (shape_eqb (shape labels) (shape logits)) eqn:E;
      [now apply shape_eqb_eq |].
    unfold astronn_sigmoid_cross_entropy_with_logits, merge_with, get_shape
      in Hout.
    rewrite E in Hout; discriminate.
  - intros E; eexists; apply sigmoid_elementwise; assumption.
Qed.

(** ** Further properties of probability mode *)

Lemma spec_mask_labels_idempotent (ys : list R) :
  spec_mask_labels (spec_mask_labels ys) = spec_mask_labels ys.
Proof.
  unfold spec_mask_labels; rewrite map_map; apply map_ext; intros y.
  destruct (Req_dec_T y MAGIC_NUMBER) as [Hy | Hy].
  - rewrite (Reqb_true _ _ Hy); destruct (Reqb 0 MAGIC_NUMBER); reflexivity.
  - now rewrite !(Reqb_false _ _ Hy).
Qed.

Lemma masked_labels_again (y_true : Tensor R) :
  tf_where (BoolTensor (tf_equal (zero_missing_labels y_true) MAGIC_NUMBER))
    (tf_zeros_like (zero_missing_labels y_true)) (zero_missing_labels y_true)
  = Ok (zero_missing_labels y_true).
Proof.
  rewrite masked_labels; unfold zero_missing_labels; simpl.
  now rewrite spec_mask_labels_idempotent.
Qed.

(** X8: With [from_logits=False] a missing label is a label 0: both
    [categorical_cross_entropy] and [binary_cross_entropy] give on any labels
    what they give on the labels with every sentinel replaced by 0. *)
Theorem probability_mode_reads_missing_as_zero (y_true y_pred : Tensor R) :
  categorical_cross_entropy y_true y_pred false
  = categorical_cross_entropy (zero_missing_labels y_true) y_pred false /\
  binary_cross_entropy y_true y_pred false
  = binary_cross_entropy (zero_missing_labels y_true) y_pred false.
Proof.
  split.
  - unfold categorical_cross_entropy; cbn [negb].
    now rewrite masked_labels_again, masked_labels.
  - unfold binary_cross_entropy, binary_inputs; cbn [negb].
    now rewrite masked_labels_again, masked_labels.
Qed.

Lemma Forall_firstn {A} (P : A -> Prop) (k : nat) (l : list A) :
  Forall P l -> Forall P (firstn k l).
Proof.
  intros H; revert k; induction H; intros [| k]; simpl; constructor; auto.
Qed.

Lemma Forall_skipn {A} (P : A -> Prop) (k : nat) (l : list A) :
  Forall P l -> Forall P (skipn k l).
Proof.
  intros H; revert k; induction H; intros [| k]; simpl; auto.
Qed.

Lemma chunks_Forall_elements {A} (P : A -> Prop) (k n : nat) (l : list A) :
  Forall P l -> Forall (Forall P) (chunks k n l).
Proof.
  revert l; induction n; simpl; intros l H; constructor.
  - now apply Forall_firstn.
  - now apply IHn, Forall_skipn.
Qed.

Lemma Forall_map2_l {A B C} (P : C -> Prop) (Q : A -> Prop) (f : A -> B -> C)
  (l1 : list A) (l2 : list B) :
  (forall a b, Q a -> P (f a b)) -> Forall Q l1 -> Forall P (map2 f l1 l2).
Proof.
  intros H HQ; revert l2; induction HQ as [| a l1 Ha _ IH]; intros [| b l2];
    simpl; constructor; auto.
Qed.






Lemma nonpositive_weighted_sum (ws ls : list R) :
  Forall (fun w => 0 <= w) ws -> Forall (fun l => l <= 0) ls ->
  Rsum (map2 Rmult ws ls) <= 0.
Proof.
  intros Hw; revert ls; induction Hw as [| w ws Hw0 _ IH]; intros ls Hl;
    [simpl; lra |].
  destruct Hl as [| l ls Hl0 Hl]; simpl; [lra |].
  specialize (IH ls Hl); nra.
Qed.

Lemma masked_label_nonneg (ys : list R) :
  Forall (fun y => 0 <= y \/ y = MAGIC_NUMBER) ys ->
  Forall (fun w => 0 <= w) (spec_mask_labels ys).
Proof.
  intros H; unfold spec_mask_labels; apply Forall_map.
  eapply Forall_impl; [| exact H]; intros y Hy; simpl.
  unfold Reqb; destruct (Req_dec_T y MAGIC_NUMBER); [lra |].
  destruct Hy; [assumption | contradiction].
Qed.

Lemma log_arguments_negative (ps : list R) :
  0 < epsilon -> epsilon <= 1 - epsilon ->
  Forall (fun l => l <= 0) (map ln (spec_log_arguments ps)).
Proof.
  intros He Hh; apply Forall_map.
  eapply Forall_impl; [| apply spec_log_arguments_bounds; exact Hh].
  intros a Ha; destruct (ln_clipped a He Ha) as (_ & H & _); lra.
Qed.

(** X9: With [from_logits=False], on labels that are non-negative or missing,
    no element of the returned loss is negative. *)
Theorem categorical_cross_entropy_nonnegative (y_true y_pred : Tensor R) :
  0 < epsilon -> epsilon <= 1 - epsilon ->
  shape y_pred <> [] -> shape y_true = shape y_pred ->
  wf y_true -> wf y_pred ->
  Forall (fun y => 0 <= y \/ y = MAGIC_NUMBER) (data y_true) ->
  exists out,
    categorical_cross_entropy y_true y_pred false = Ok out /\
    Forall (fun l => 0 <= l) (data out).
Proof.
  intros He Hh Hne Et Ht Hp Hy.
  destruct (exists_last Hne) as (pre & k & E).
  eexists; split;
    [apply (categorical_probability_mode y_true y_pred pre k); auto |].
  simpl.
  apply (Forall_map2_l _ (Forall (fun y => 0 <= y \/ y = MAGIC_NUMBER))).
  - intros ys ps Hys; unfold spec_cross_entropy_row, spec_row_terms.
    pose proof (nonpositive_weighted_sum _ _ (masked_label_nonneg ys Hys)
                  (log_arguments_negative ps He Hh)).
    lra.
  - unfold rows; now apply chunks_Forall_elements.
Qed.





(** X11: Scalars have no last axis: with [from_logits=False]
    [categorical_cross_entropy] raises on a scalar [y_pred], and
    [binary_cross_entropy] raises on scalars in both modes. *)
Theorem scalar_inputs_raise (y_true y_pred : Tensor R) (from_logits : bool) :
  shape y_true = [] -> shape y_pred = [] -> wf y_true -> wf y_pred ->
  categorical_cross_entropy y_true y_pred false
  = Raise (ValueError "Invalid reduction dimension") /\
  binary_cross_entropy y_true y_pred from_logits
  = Raise (ValueError "Invalid reduction dimension").
Proof.
  intros Et Ep Ht Hp; split.
  - unfold categorical_cross_entropy; cbn [negb].
    rewrite masked_labels; cbn [bind].
    unfold tf_reduce_sum, reduce_axis, get_shape, rank; rewrite Ep; reflexivity.
  - unfold binary_cross_entropy, binary_inputs.
    destruct from_logits; cbn [negb bind fst snd].
    + rewrite sigmoid_elementwise by congruence; cbn [bind].
      unfold tf_reduce_mean, reduce_axis, rank; simpl; rewrite Ep; reflexivity.
    + rewrite masked_labels; cbn [bind].
      unfold tf_div; rewrite tf_binop_same;
        [| apply tf_unop_wf; exact Hp | do 2 apply tf_unop_wf; exact Hp
         | reflexivity].
      cbn [bind fst snd].
      rewrite sigmoid_elementwise;
        [| unfold wf in *; simpl; unfold spec_mask_labels;
           rewrite length_map; exact Ht
         | unfold wf in *; simpl; rewrite length_map, map2_length;
           rewrite !length_map; auto
         | simpl; congruence].
      cbn [bind].
      unfold tf_reduce_mean, reduce_axis, rank; simpl; rewrite Ep; reflexivity.
Qed.

(** ** Further properties of the binary cross-entropy *)

Lemma binary_inputs_probability (y_true y_pred : Tensor R) :
  wf y_pred ->
  binary_inputs y_true y_pred false
  = Ok (zero_missing_labels y_true,
        mkTensor (shape y_pred)
          (map (fun p => logit (clip epsilon (1 - epsilon) p)) (data y_pred))).
Proof.
  intros Hp; unfold binary_inputs; cbn [negb].
  rewrite masked_labels; cbn [bind].
  unfold tf_div; rewrite tf_binop_same;
    [| apply tf_unop_wf; exact Hp | do 2 apply tf_unop_wf; exact Hp
     | reflexivity].
  cbn [bind]; unfold zero_missing_labels, tf_log, tf_unop; simpl.
  now rewrite map2_map_r, map2_diag, !map_map.
Qed.

(** X12: In both modes the result is the mean over the last axis of the masked
    sigmoid cross-entropy of the labels and logits the mode prepares; its
    shape is the input's without the last axis. *)
Theorem binary_cross_entropy_is_row_mean
  (y_true y_pred : Tensor R) (from_logits : bool) :
  shape y_pred <> [] -> shape y_true = shape y_pred ->
  wf y_true -> wf y_pred ->
  exists inputs losses,
    binary_inputs y_true y_pred from_logits = Ok inputs /\
    astronn_sigmoid_cross_entropy_with_logits (fst inputs) (snd inputs)
    = Ok losses /\
    shape losses = shape y_pred /\
    binary_cross_entropy y_true y_pred from_logits
    = Ok (mkTensor (removelast (shape y_pred)) (map Rmean (rows losses))).
Proof.
  intros Hne Et Ht Hp.
  destruct (exists_last Hne) as (pre & k & E).
  assert (Hin : exists labels logits,
             binary_inputs y_true y_pred from_logits = Ok (labels, logits) /\
             wf labels /\ wf logits /\
             shape labels = shape logits /\ shape logits = shape y_pred).
  { destruct from_logits.
    - exists y_true, y_pred; repeat split; auto.
    - do 2 eexists; split; [apply binary_inputs_probability; exact Hp |].
      unfold wf, zero_missing_labels, spec_mask_labels in *; simpl.
      rewrite !length_map; repeat split; auto. }
  destruct Hin as (labels & logits & Hi & Hwl & Hwx & Esh & Ex).
  exists (labels, logits); eexists.
  split; [exact Hi |].
  split; [apply sigmoid_elementwise; assumption |].
  split; [exact Ex |].
  unfold binary_cross_entropy; rewrite Hi; cbn [bind fst snd].
  rewrite sigmoid_elementwise by assumption; cbn [bind].
  rewrite E, removelast_last.
  apply (mean_of_losses _ pre k); [simpl; congruence |].
  unfold wf in *; simpl; rewrite map2_length; congruence.
Qed.

Lemma logit_bounded (a : R) :
  0 < epsilon -> epsilon <= a <= 1 - epsilon ->
  Rabs (logit a) <= ln ((1 - epsilon) / epsilon).
Proof.
  intros He [Hlo Hhi]; unfold logit.
  assert (Hup : a / (1 - a) <= (1 - epsilon) / epsilon).
  { apply (Rmult_le_reg_r (epsilon * (1 - a))); [nra |].
    replace (a / (1 - a) * (epsilon * (1 - a))) with (a * epsilon)
      by (field; lra).
    replace ((1 - epsilon) / epsilon * (epsilon * (1 - a)))
      with ((1 - epsilon) * (1 - a)) by (field; lra).
    nra. }
  assert (Hdn : / ((1 - epsilon) / epsilon) <= a / (1 - a)).
  { replace (/ ((1 - epsilon) / epsilon)) with (epsilon / (1 - epsilon))
      by (field; lra).
    apply (Rmult_le_reg_r ((1 - epsilon) * (1 - a))); [nra |].
    replace (epsilon / (1 - epsilon) * ((1 - epsilon) * (1 - a)))
      with (epsilon * (1 - a)) by (field; lra).
    replace (a / (1 - a) * ((1 - epsilon) * (1 - a)))
      with (a * (1 - epsilon)) by (field; lra).
    nra. }
  assert (Hq : 0 < (1 - epsilon) / epsilon)
    by (apply Rdiv_lt_0_compat; lra).
  assert (Hi : 0 < / ((1 - epsilon) / epsilon))
    by (now apply Rinv_0_lt_compat).
  pose proof (ln_monotone _ _ Hi Hdn) as H1.
  rewrite ln_Rinv in H1 by exact Hq.
  assert (Ha : 0 < a / (1 - a)) by lra.
  pose proof (ln_monotone _ _ Ha Hup) as H2.
  apply Rabs_le; lra.
Qed.

(** X14: With [from_logits=False] the logits handed to the masked sigmoid
    cross-entropy are bounded by [log((1 - epsilon) / epsilon)], whatever the
    predictions: probabilities 0 and 1 do not reach the logarithm. *)
Theorem binary_probability_logits_bounded (y_true y_pred : Tensor R) :
  0 < epsilon -> epsilon <= 1 - epsilon -> wf y_pred ->
  exists labels logits,
    binary_inputs y_true y_pred false = Ok (labels, logits) /\
    shape logits = shape y_pred /\
    Forall (fun x => Rabs x <= ln ((1 - epsilon) / epsilon)) (data logits).
Proof.
  intros He Hh Hp.
  do 2 eexists; split; [apply binary_inputs_probability; exact Hp |].
  split; [reflexivity |]; simpl.
  apply Forall_map, Forall_forall; intros p _.
  apply logit_bounded; [exact He |].
  now apply clip_bounds.
Qed.

(** ** Further properties of the Bayesian cross-entropy *)

(** X15: For a [y_pred] with at least two axes, [num_classes] is the size of its
    second axis, [pred] is [y_pred] itself, and [undistorted_loss] is
    [categorical_cross_entropy(y_pred, y_true, from_logits)]: the variance
    column is among the labels of that loss. *)
Theorem bayesian_pred_is_whole_prediction
  (from_logits : bool) (y_true y_pred : Tensor R) (d0 d1 : nat)
  (rest : list nat) :
  shape y_pred = d0 :: d1 :: rest -> wf y_pred ->
  bayes_num_classes y_pred = Ok d1 /\
  bayes_pred y_pred = Ok y_pred /\
  bayes_undistorted_loss from_logits y_true y_pred
  = categorical_cross_entropy y_pred y_true from_logits.
Proof.
  intros E H.
  split; [now apply (bayes_num_classes_is_width y_pred d0 d1 rest) |].
  assert (Hp := bayes_pred_is_y_pred y_pred d0 d1 rest E H).
  split; [exact Hp |].
  unfold bayes_undistorted_loss; now rewrite Hp.
Qed.

(** ** Swapping the two classes *)

Lemma raw_loss_closed (x y : R) :
  raw_loss x y = ln (1 + exp (- x)) + x - x * y.
Proof.
  rewrite raw_loss_is_cross_entropy; unfold bernoulli_cross_entropy.
  rewrite ln_sigmoid, ln_one_minus_sigmoid; lra.
Qed.

Lemma raw_loss_swap (x y : R) : raw_loss (- x) (1 - y) = raw_loss x y.
Proof.
  rewrite !raw_loss_closed, Ropp_involutive, softplus_flip; lra.
Qed.

Lemma map2_ext_Forall {A B C} (Q : B -> Prop) (f f' : A -> B -> C) l1 l2 :
  Forall Q l2 -> (forall a b, Q b -> f a b = f' a b) ->
  map2 f l1 l2 = map2 f' l1 l2.
Proof.
  intros HQ H; revert l1; induction HQ as [| b l2 Hb _ IH]; intros [| a l1];
    simpl; try reflexivity.
  f_equal; auto.
Qed.

(** X4: Negating the logits and replacing every label [y] by [1 - y] leaves the
    masked sigmoid cross-entropy unchanged, when no label and no swapped
    label is the sentinel. *)
Theorem sigmoid_cross_entropy_class_swap (labels logits : Tensor R) :
  wf labels -> wf logits -> shape labels = shape logits ->
  Forall (fun y => y <> MAGIC_NUMBER /\ 1 - y <> MAGIC_NUMBER) (data labels) ->
  astronn_sigmoid_cross_entropy_with_logits
    (tf_unop (fun y => 1 - y) labels) (tf_neg logits)
  = astronn_sigmoid_cross_entropy_with_logits labels logits.
Proof.
  intros Hl Hx E Hy.
  rewrite !sigmoid_elementwise; try assumption;
    try (apply tf_unop_wf; assumption).
  simpl; f_equal; f_equal.
  rewrite map2_map_l, map2_map_r.
  apply (map2_ext_Forall _ _ _ _ _ Hy).
  intros x y [H1 H2]; unfold sigmoid_loss.
  rewrite !masked_non_sentinel by assumption.
  apply raw_loss_swap.
Qed.

End classification.

(** ** Concrete runs *)

Lemma raw_loss_at_sentinel : 50000 < raw_loss 5 magic.
Proof.
  unfold raw_loss, magic.
  assert (H : relu_logit 5 = 5)
    by (unfold relu_logit; rewrite Rgeb_true by lra; reflexivity).
  pose proof (log1p_unit _ (exp_nonpos_le_1 _ (neg_abs_logit_nonpos 5))).
  rewrite H; lra.
Qed.

(** C1: on the scenario of the specification, with the tensor equality of
    TensorFlow 1.x graphs, the second row of the masked sigmoid
    cross-entropy is not [0, 0]: both elements are the sign-split loss of the
    logit 5 against the label -9999, more than 50000. *)
Theorem scenario_sentinel_row_not_zero :
  astronn_sigmoid_cross_entropy_with_logits magic ObjectIdentity
    scenario_labels scenario_logits
  = Ok (mkTensor [2; 2]%nat
          [raw_loss 2 1; raw_loss (-1) 0; raw_loss 5 magic; raw_loss 5 magic]) /\
  50000 < raw_loss 5 magic.
Proof.
  split; [| exact raw_loss_at_sentinel].
  now rewrite sigmoid_no_mask_object_identity.
Qed.

(** With element-wise tensor equality the same run gives the row [0, 0]. *)
Lemma scenario_sentinel_row_zero_elementwise :
  astronn_sigmoid_cross_entropy_with_logits magic ElementWise
    scenario_labels scenario_logits
  = Ok (mkTensor [2; 2]%nat [raw_loss 2 1; raw_loss (-1) 0; 0; 0]).
Proof.
  rewrite sigmoid_elementwise by reflexivity.
  unfold sigmoid_loss, masked; simpl.
  rewrite (Reqb_true magic magic eq_refl).
  rewrite !Reqb_false by (unfold magic; lra).
  reflexivity.
Qed.

(** The stable formula on the scenario: its first element is the logistic
    loss of the logit 2 against the label 1. *)
Lemma sigmoid_cross_entropy_stable_formula_witness :
  wf scenario_labels /\ wf scenario_logits /\
  shape scenario_labels = shape scenario_logits /\
  exists out,
    astronn_sigmoid_cross_entropy_with_logits magic ObjectIdentity
      scenario_labels scenario_logits = Ok out /\
    nth_error (data out) 0 = Some (logistic_loss 2 1).
Proof.
  repeat split; try reflexivity.
  destruct (sigmoid_cross_entropy_stable_formula magic ObjectIdentity
              scenario_labels scenario_logits eq_refl eq_refl eq_refl)
    as (out & Hout & _ & Hel).
  exists out; split; [exact Hout |].
  destruct (Hel 0%nat 2 1 eq_refl eq_refl) as (H1 & H2 & _).
  - unfold magic; lra.
  - now rewrite <- H2.
Defined.

Lemma logit_three_quarters : logit (3 / 4) = ln 3.
Proof. unfold logit; f_equal; lra. Qed.

Lemma ln_3_pos : 0 < ln 3.
Proof. rewrite <- ln_1; apply ln_increasing; lra. Qed.

Lemma Rmean_singleton (a : R) : Rmean [a] = a.
Proof. unfold Rmean; simpl; lra. Qed.

Lemma raw_loss_label_0_pos (x : R) : 0 < raw_loss x 0.
Proof.
  unfold raw_loss.
  pose proof (log1p_unit _ (exp_nonpos_le_1 _ (neg_abs_logit_nonpos x))).
  assert (0 <= relu_logit x) by (rewrite relu_logit_max; apply Rmax_r).
  lra.
Qed.

(** C8: on a missing label predicted with probability 3/4 the two modes
    differ.  With probabilities the sentinel has become the label 0 and the
    loss is the sign-split loss of the logit [log 3] against 0, which is
    positive; with the logit [log(p / (1 - p))] the label is still the
    sentinel, and the loss is 0 under element-wise tensor equality and the
    loss against the label -9999 under object identity. *)
Theorem binary_modes_differ_on_missing_label (m : eq_semantics) :
  binary_cross_entropy magic keras_epsilon m missing_label three_quarters false
  = Ok (mkTensor [1%nat] [raw_loss (ln 3) 0]) /\
  binary_cross_entropy magic keras_epsilon m missing_label
    (tf_unop logit three_quarters) true
  = Ok (mkTensor [1%nat]
          [match m with
           | ObjectIdentity => raw_loss (ln 3) magic
           | ElementWise => 0
           end]) /\
  0 < raw_loss (ln 3) 0 < raw_loss (ln 3) magic.
Proof.
  split; [| split].
  - rewrite (binary_cross_entropy_probability_mode magic keras_epsilon m
               missing_label three_quarters [1%nat] 1%nat)
      by reflexivity.
    unfold rows; simpl.
    rewrite Rmean_singleton, (Reqb_true magic magic eq_refl).
    rewrite clip_in_range by (unfold keras_epsilon; lra).
    rewrite logit_three_quarters.
    unfold sigmoid_loss, masked.
    destruct m; [reflexivity |].
    rewrite Reqb_false by (unfold magic; lra); reflexivity.
  - rewrite (binary_cross_entropy_logit_mode magic keras_epsilon m
               missing_label (tf_unop logit three_quarters) [1%nat] 1%nat)
      by reflexivity.
    unfold rows; simpl.
    rewrite Rmean_singleton, logit_three_quarters.
    unfold sigmoid_loss, masked.
    destruct m; [reflexivity |].
    rewrite (Reqb_true magic magic eq_refl); reflexivity.
  - split; [apply raw_loss_label_0_pos |].
    unfold raw_loss, magic; pose proof ln_3_pos; nra.
Qed.

(** The four steps on the labels and predictions of the scenario. *)
Lemma categorical_cross_entropy_probability_steps_witness :
  shape scenario_predictions <> [] /\
  shape scenario_labels = shape scenario_predictions /\
  wf scenario_labels /\ wf scenario_predictions /\
  categorical_cross_entropy magic keras_epsilon true
    scenario_labels scenario_predictions false
  = Ok (spec_categorical_cross_entropy magic keras_epsilon
          scenario_labels scenario_predictions).
Proof.
  assert (Hne : shape scenario_predictions <> []) by discriminate.
  split; [exact Hne |].
  do 3 (split; [reflexivity |]).
  exact (proj1 (categorical_cross_entropy_probability_steps magic keras_epsilon
                  true scenario_labels scenario_predictions
                  Hne eq_refl eq_refl eq_refl)).
Defined.

Lemma two_pos : 0 < 2.
Proof. lra. Qed.

(** Doubling the predictions of the scenario changes nothing. *)
Lemma categorical_cross_entropy_scale_invariant_witness :
  0 < 2 /\
  categorical_cross_entropy magic keras_epsilon true scenario_labels
    (tf_unop (Rmult 2) scenario_predictions) false
  = categorical_cross_entropy magic keras_epsilon true scenario_labels
      scenario_predictions false.
Proof.
  split; [exact two_pos |].
  exact (categorical_cross_entropy_scale_invariant magic keras_epsilon true 2
           scenario_labels scenario_predictions two_pos).
Defined.

Lemma keras_epsilon_pos : 0 < keras_epsilon.
Proof. unfold keras_epsilon; lra. Qed.

Lemma keras_epsilon_half : keras_epsilon <= 1 - keras_epsilon.
Proof. unfold keras_epsilon; lra. Qed.

Lemma scenario_predictions_positive :
  Forall (fun ps => 0 < Rsum ps) (rows scenario_predictions).
Proof. unfold rows; simpl; repeat constructor; simpl; lra. Qed.

(** With the Keras default of [epsilon], the values that [tf.log] receives
    on the predictions of the scenario. *)
Lemma categorical_cross_entropy_log_is_safe_witness :
  0 < keras_epsilon /\ keras_epsilon <= 1 - keras_epsilon /\
  Forall (fun ps => 0 < Rsum ps) (rows scenario_predictions) /\
  exists p,
    clipped_probabilities keras_epsilon scenario_predictions = Ok p /\
    Forall (fun a => keras_epsilon <= a <= 1 - keras_epsilon /\ 0 < a /\
                     ln keras_epsilon <= ln a < 0) (data p).
Proof.
  split; [exact keras_epsilon_pos |].
  split; [exact keras_epsilon_half |].
  split; [exact scenario_predictions_positive |].
  assert (Hne : shape scenario_predictions <> []) by discriminate.
  destruct (categorical_cross_entropy_log_is_safe magic keras_epsilon true
              scenario_labels scenario_predictions
              keras_epsilon_pos keras_epsilon_half Hne eq_refl eq_refl eq_refl
              scenario_predictions_positive)
    as (_ & (p & Hp & _ & Hb) & _).
  exists p; split; assumption.
Defined.

(** Labels for the two classes of [bayes_y_pred]. *)
Definition bayes_y_true_classes : Tensor R := mkTensor [1; 2]%nat [0; 1].

(** C4: on [y_pred = [[1, 0, 0]]], two class scores and a variance, the code
    does not split [y_pred]: [num_classes] is 3, the width of [y_pred]
    itself, so [pred] is all three columns and not the first two, [variance]
    and with it [variance_depressor] are an index error and not the last
    column, and against labels for the two classes [undistorted_loss] is an
    error under either flag.  [std] is the square root of the whole of
    [y_pred], as the claim says. *)
Theorem bayesian_split_is_not_made :
  bayes_num_classes bayes_y_pred = Ok 3%nat /\
  bayes_pred bayes_y_pred = Ok (mkTensor [1; 3]%nat [1; 0; 0]) /\
  bayes_pred bayes_y_pred <> Ok (mkTensor [1; 2]%nat [1; 0]) /\
  bayes_variance bayes_y_pred
  = Raise (InvalidArgumentError "slice index out of bounds") /\
  bayes_variance_depressor bayes_y_pred
  = Raise (InvalidArgumentError "slice index out of bounds") /\
  (forall from_logits : bool,
     exists e,
       bayes_undistorted_loss magic keras_epsilon true from_logits
         bayes_y_true_classes bayes_y_pred = Raise e) /\
  bayes_std bayes_y_pred = mkTensor [1; 3]%nat [sqrt 1; sqrt 0; sqrt 0].
Proof.
  assert (Hp := bayes_pred_is_y_pred bayes_y_pred 1 3 [] eq_refl eq_refl).
  assert (Hv := bayes_variance_out_of_bounds bayes_y_pred 1 3 [] eq_refl).
  split; [reflexivity |].
  split; [exact Hp |].
  split; [rewrite Hp; discriminate |].
  split; [exact Hv |].
  split; [unfold bayes_variance_depressor; rewrite Hv; reflexivity |].
  split; [| reflexivity].
  intros from_logits; unfold bayes_undistorted_loss; rewrite Hp; cbn [bind].
  destruct from_logits; eexists; reflexivity.
Qed.

(** ** Concrete runs of the further properties *)

Lemma known_labels_in_unit : Forall (fun y => 0 <= y <= 1) (data known_labels).
Proof. simpl; repeat constructor; lra. Qed.

Lemma known_labels_not_missing :
  Forall (fun y => y <> magic) (data known_labels).
Proof. simpl; repeat constructor; unfold magic; lra. Qed.


Lemma scenario_labels_nonneg_or_missing :
  Forall (fun y => 0 <= y \/ y = magic) (data scenario_labels).
Proof.
  simpl.
  constructor; [left; lra |]; constructor; [left; lra |].
  constructor; [right; reflexivity |]; constructor; [right; reflexivity |].
  constructor.
Qed.

Lemma inner_probabilities_in_range :
  Forall (fun p => keras_epsilon <= p <= 1 - keras_epsilon)
    (data inner_probabilities).
Proof. simpl; repeat constructor; unfold keras_epsilon; lra. Qed.

Lemma one_not_magic : 1 <> magic.
Proof. unfold magic; lra. Qed.

(** The first element of the scenario is the cross-entropy of the label 1
    against the sigmoid of the logit 2. *)
Lemma sigmoid_cross_entropy_of_sigmoid_witness :
  exists out,
    astronn_sigmoid_cross_entropy_with_logits magic ObjectIdentity
      scenario_labels scenario_logits = Ok out /\
    nth_error (data out) 0 = Some (bernoulli_cross_entropy 2 1).
Proof.
  destruct (sigmoid_cross_entropy_of_sigmoid magic ObjectIdentity
              scenario_labels scenario_logits eq_refl eq_refl eq_refl)
    as (out & Hout & Hel).
  exists out; split; [exact Hout |].
  exact (Hel 0%nat 2 1 eq_refl eq_refl one_not_magic).
Defined.

(** Known labels in [0, 1] against the logits of the scenario. *)
Lemma sigmoid_cross_entropy_nonnegative_witness :
  Forall (fun y => 0 <= y <= 1) (data known_labels) /\
  exists out,
    astronn_sigmoid_cross_entropy_with_logits magic ElementWise
      known_labels scenario_logits = Ok out /\
    Forall (fun l => 0 <= l) (data out).
Proof.
  split; [exact known_labels_in_unit |].
  exact (sigmoid_cross_entropy_nonnegative magic ElementWise
           known_labels scenario_logits eq_refl eq_refl eq_refl
           known_labels_in_unit).
Defined.

(** The scenario has one shape, so the function returns. *)
Lemma sigmoid_returns_iff_same_shape_witness :
  shape scenario_labels = shape scenario_logits /\
  exists out,
    astronn_sigmoid_cross_entropy_with_logits magic ObjectIdentity
      scenario_labels scenario_logits = Ok out.
Proof.
  split; [reflexivity |].
  exact (proj2 (sigmoid_returns_iff_same_shape magic ObjectIdentity
                  scenario_labels scenario_logits eq_refl eq_refl) eq_refl).
Defined.

(** The third element of the scenario has a missing label. *)
Lemma sigmoid_sentinel_zero_elementwise_witness :
  nth_error (data scenario_labels) 2 = Some magic /\
  exists out,
    astronn_sigmoid_cross_entropy_with_logits magic ElementWise
      scenario_labels scenario_logits = Ok out /\
    nth_error (data out) 2 = Some 0.
Proof.
  split; [reflexivity |].
  exact (sigmoid_sentinel_zero_elementwise magic ElementWise
           scenario_labels scenario_logits 2 eq_refl eq_refl eq_refl eq_refl
           eq_refl).
Defined.

Lemma scenario_predictions_not_scalar : shape scenario_predictions <> [].
Proof. discriminate. Qed.

Lemma inner_probabilities_not_scalar : shape inner_probabilities <> [].
Proof. discriminate. Qed.




(** The labels of the scenario are 1, 0 or missing. *)
Lemma categorical_cross_entropy_nonnegative_witness :
  Forall (fun y => 0 <= y \/ y = magic) (data scenario_labels) /\
  exists out,
    categorical_cross_entropy magic keras_epsilon true scenario_labels
      scenario_predictions false = Ok out /\
    Forall (fun l => 0 <= l) (data out).
Proof.
  split; [exact scenario_labels_nonneg_or_missing |].
  exact (categorical_cross_entropy_nonnegative magic keras_epsilon true
           scenario_labels scenario_predictions
           keras_epsilon_pos keras_epsilon_half scenario_predictions_not_scalar
           eq_refl eq_refl eq_refl scenario_labels_nonneg_or_missing).
Defined.


(** A scalar label and a scalar prediction. *)
Lemma scalar_inputs_raise_witness :
  shape scalar_one = [] /\
  categorical_cross_entropy magic keras_epsilon true scalar_one scalar_one false
  = Raise (ValueError "Invalid reduction dimension") /\
  binary_cross_entropy magic keras_epsilon ObjectIdentity scalar_one scalar_one
    true
  = Raise (ValueError "Invalid reduction dimension").
Proof.
  split; [reflexivity |].
  exact (scalar_inputs_raise magic keras_epsilon ObjectIdentity true
           scalar_one scalar_one true eq_refl eq_refl eq_refl eq_refl).
Defined.

(** Known labels against probabilities, in probability mode. *)
Lemma binary_cross_entropy_is_row_mean_witness :
  exists inputs losses,
    binary_inputs magic keras_epsilon known_labels inner_probabilities false
    = Ok inputs /\
    astronn_sigmoid_cross_entropy_with_logits magic ObjectIdentity
      (fst inputs) (snd inputs) = Ok losses /\
    shape losses = shape inner_probabilities /\
    binary_cross_entropy magic keras_epsilon ObjectIdentity known_labels
      inner_probabilities false
    = Ok (mkTensor (removelast (shape inner_probabilities))
            (map Rmean (rows losses))).
Proof.
  exact (binary_cross_entropy_is_row_mean magic keras_epsilon ObjectIdentity
           known_labels inner_probabilities false
           inner_probabilities_not_scalar eq_refl eq_refl eq_refl).
Defined.

(** Known labels and probabilities that the clipping leaves alone. *)
Lemma binary_cross_entropy_modes_agree_witness :
  Forall (fun y => y <> magic) (data known_labels) /\
  Forall (fun p => keras_epsilon <= p <= 1 - keras_epsilon)
    (data inner_probabilities) /\
  binary_cross_entropy magic keras_epsilon ObjectIdentity known_labels
    inner_probabilities false
  = binary_cross_entropy magic keras_epsilon ObjectIdentity known_labels
      (tf_unop logit inner_probabilities) true.
Proof.
  split; [exact known_labels_not_missing |].
  split; [exact inner_probabilities_in_range |].
  exact (binary_cross_entropy_modes_agree magic keras_epsilon ObjectIdentity
           known_labels inner_probabilities
           inner_probabilities_not_scalar eq_refl eq_refl eq_refl
           known_labels_not_missing inner_probabilities_in_range).
Defined.

(** The logits of the probabilities of the scenario, with the Keras default
    of [epsilon]. *)
Lemma binary_probability_logits_bounded_witness :
  exists labels logits,
    binary_inputs magic keras_epsilon scenario_labels scenario_predictions
      false = Ok (labels, logits) /\
    shape logits = shape scenario_predictions /\
    Forall (fun x => Rabs x <= ln ((1 - keras_epsilon) / keras_epsilon))
      (data logits).
Proof.
  exact (binary_probability_logits_bounded magic keras_epsilon
           scenario_labels scenario_predictions
           keras_epsilon_pos keras_epsilon_half eq_refl).
Defined.

(** Two class scores and a variance: three columns, all of them in [pred]. *)
Lemma bayesian_pred_is_whole_prediction_witness :
  shape bayes_y_pred = [1; 3]%nat /\
  bayes_num_classes bayes_y_pred = Ok 3%nat /\
  bayes_pred bayes_y_pred = Ok bayes_y_pred /\
  bayes_undistorted_loss magic keras_epsilon true true bayes_y_true bayes_y_pred
  = categorical_cross_entropy magic keras_epsilon true bayes_y_pred
      bayes_y_true true.
Proof.
  split; [reflexivity |].
  exact (bayesian_pred_is_whole_prediction magic keras_epsilon true true
           bayes_y_true bayes_y_pred 1 3 [] eq_refl eq_refl).
Defined.

Lemma known_labels_swap_not_missing :
  Forall (fun y => y <> magic /\ 1 - y <> magic) (data known_labels).
Proof. simpl; repeat constructor; unfold magic; lra. Qed.

(** Known labels 0 and 1 against the logits of the scenario. *)
Lemma sigmoid_cross_entropy_class_swap_witness :
  Forall (fun y => y <> magic /\ 1 - y <> magic) (data known_labels) /\
  astronn_sigmoid_cross_entropy_with_logits magic ElementWise
    (tf_unop (fun y => 1 - y) known_labels) (tf_neg scenario_logits)
  = astronn_sigmoid_cross_entropy_with_logits magic ElementWise
      known_labels scenario_logits.
Proof.
  split; [exact known_labels_swap_not_missing |].
  exact (sigmoid_cross_entropy_class_swap magic ElementWise
           known_labels scenario_logits eq_refl eq_refl eq_refl
           known_labels_swap_not_missing).
Defined.
